(** * extract-twitter-bookmarks: the extraction task and the login client

    A shallow embedding of [src/extraction-task.ts] (class [ExtractionTask])
    and of the login client (class [Client], enum [State]), together with
    the parts of Immutable's [OrderedSet] and of the RxJS operators
    [reduce] and [takeWhile] that the two classes use.

    Layout: the definitions come first, one module per source unit; the
    lemmas and theorems follow in the second half of the file. *)

From Stdlib Require Import List String ZArith Bool Arith Lia Permutation.
Import ListNotations.

Local Open Scope string_scope.
Local Open Scope list_scope.

(* ================================================================== *)
(** ** JavaScript values used by both classes                          *)
(* ================================================================== *)

(** An [Error] object: its [message] and its optional [stack]. *)
Record JsError : Type := mkJsError {
  message : string;
  stack : option string
}.

(** A JavaScript number that holds a count: an integer or
    [Number.POSITIVE_INFINITY]. *)
Inductive JsNumber : Type :=
| Finite (z : Z)
| PositiveInfinity.

(** [Number.isSafeInteger]: the integers that doubles hold and add
    without rounding, as long as the sum is one of them too. *)
Definition safe_integer (z : Z) : bool :=
  (Z.abs z <=? 2 ^ 53 - 1)%Z.

(** [n <= limit] for a collection size [n]. *)
Definition size_leb (n : nat) (limit : JsNumber) : bool :=
  match limit with
  | Finite z => (Z.of_nat n <=? z)%Z
  | PositiveInfinity => true
  end.

(** [limit !== Number.POSITIVE_INFINITY] *)
Definition is_finite (limit : JsNumber) : bool :=
  match limit with
  | Finite _ => true
  | PositiveInfinity => false
  end.

(** Truthiness of an optional string ([if(fileName)]): [undefined] and the
    empty string are falsy. *)
Definition truthy (s : option string) : bool :=
  match s with
  | Some EmptyString => false
  | Some _ => true
  | None => false
  end.

(** [Array.prototype.slice(0, end)]: a negative [end] counts from the end
    of the array, an [end] beyond the length stops at the length. *)
Definition slice0 {A : Type} (arr : list A) (finish : JsNumber) : list A :=
  match finish with
  | PositiveInfinity => arr
  | Finite z =>
      if (z <? 0)%Z
      then firstn (Z.to_nat (Z.max (Z.of_nat (List.length arr) + z) 0)) arr
      else firstn (Z.to_nat z) arr
  end.

(* ================================================================== *)
(** ** Method bodies: state, an effect log, and exceptions             *)
(* ================================================================== *)

(** How a method body ends: it returns, or it throws (an [async] method
    whose promise rejects). *)
Inductive Completion (A : Type) : Type :=
| Returned (a : A)
| Threw (e : JsError).
Arguments Returned {A} a.
Arguments Threw {A} e.

(** A method over an object of type [S] whose visible effects are of
    type [E]: from the object before the call to the completion, the
    object after the call and the effects in the order they happened. *)
Definition Method (S E A : Type) : Type := S -> Completion A * S * list E.

Module Method.
Section Combinators.
Context {S E : Type}.

Definition ret {A} (a : A) : Method S E A :=
    fun s => (Returned a, s, []).

Definition bind {A B} (m : Method S E A) (k : A -> Method S E B)
    : Method S E B :=
    fun s =>
      match m s with
      | (Returned a, s1, l1) =>
          match k a s1 with
          | (r, s2, l2) => (r, s2, l1 ++ l2)
          end
      | (Threw e, s1, l1) => (Threw e, s1, l1)
      end.

Definition gets {A} (f : S -> A) : Method S E A :=
    fun s => (Returned (f s), s, []).

Definition modify (f : S -> S) : Method S E unit :=
    fun s => (Returned tt, f s, []).

Definition effect (e : E) : Method S E unit :=
    fun s => (Returned tt, s, [e]).

Definition throw {A} (e : JsError) : Method S E A :=
    fun s => (Threw e, s, []).

  (** [try { body } catch(err) { handler err }] *)
Definition try_catch {A} (body : Method S E A)
             (handler : JsError -> Method S E A) : Method S E A :=
    fun s =>
      match body s with
      | (Returned a, s1, l1) => (Returned a, s1, l1)
      | (Threw e, s1, l1) =>
          match handler e s1 with
          | (r, s2, l2) => (r, s2, l1 ++ l2)
          end
      end.

Definition completion {A} (r : Completion A * S * list E) : Completion A :=
    fst (fst r).
Definition after {A} (r : Completion A * S * list E) : S :=
    snd (fst r).
Definition effects {A} (r : Completion A * S * list E) : list E :=
    snd r.
End Combinators.
End Method.

Declare Scope method_scope.
Delimit Scope method_scope with method.
Notation "x <- m ;; k" := (Method.bind m (fun x => k))
  (at level 61, m at next level, right associativity) : method_scope.
Notation "m ;; k" := (Method.bind m (fun _ => k))
  (at level 61, right associativity) : method_scope.

(* ================================================================== *)
(** ** Immutable's OrderedSet                                          *)
(* ================================================================== *)

(** An [OrderedSet] is held as the list of its elements in insertion
    order. Elements are compared with [Immutable.is], which is given here
    as the boolean equality [eqb] of the element type. *)
Module OrderedSet.
Section Elements.
Context {A : Type} (eqb : A -> A -> bool).

  (** [OrderedSet()] *)
Definition empty : list A := [].

  (** [set.has(x)] *)
Definition has (s : list A) (x : A) : bool := existsb (eqb x) s.

  (** [set.add(x)]: an element already present keeps its place. *)
Definition add (s : list A) (x : A) : list A :=
    if has s x then s else s ++ [x].

  (** [set.union(iter)]: every value of [iter] is added in turn. *)
Definition union (s : list A) (iter : list A) : list A :=
    fold_left add iter s.

  (** [set.size] *)
Definition size (s : list A) : nat := List.length s.

  (** [set.toArray()] *)
Definition toArray (s : list A) : list A := s.

(** How often [x] stands in [s]. *)
Definition occurrences (s : list A) (x : A) : nat :=
  List.length (filter (eqb x) s).
End Elements.
End OrderedSet.

(* ================================================================== *)
(** ** RxJS: notifications, reduce, takeWhile                          *)
(* ================================================================== *)

(** An observable is held as the notifications it delivers to a
    subscriber, in order. A list without a final [Complete] or [Error] is
    an observable that has delivered that much and is still open. *)
Module Rx.

Inductive Notification (A : Type) : Type :=
| Next (a : A)
| Complete
| Error (e : JsError).
Arguments Next {A} a.
Arguments Complete {A}.
Arguments Error {A} e.

Definition Observable (A : Type) : Type := list (Notification A).

Section Operators.
Context {A : Type}.

  (** [reduce(f)] without a seed: the first value starts the
      accumulation, nothing is delivered while the source is open, and
      the accumulated value is delivered once, when the source
      completes. *)
Fixpoint reduce_from (f : A -> A -> A) (acc : option A)
           (source : Observable A) : Observable A :=
    match source with
    | [] => []
    | Next x :: rest =>
        reduce_from f (Some (match acc with
                             | None => x
                             | Some a => f a x
                             end)) rest
    | Complete :: _ =>
        match acc with
        | Some a => [Next a; Complete]
        | None => [Complete]
        end
    | Error e :: _ => [Error e]
    end.

Definition reduce (f : A -> A -> A) (source : Observable A)
    : Observable A :=
    reduce_from f None source.

  (** [takeWhile(p)]: values pass while [p] holds; the first value that
      fails [p] is dropped and completes the result. *)
Fixpoint takeWhile (p : A -> bool) (source : Observable A)
    : Observable A :=
    match source with
    | [] => []
    | Next x :: rest => if p x then Next x :: takeWhile p rest else [Complete]
    | Complete :: _ => [Complete]
    | Error e :: _ => [Error e]
    end.

  (** The four shapes of what [reduce] delivers: nothing yet, one value
    and completion, completion alone, or an error. *)
Inductive reduced : Observable A -> Prop :=
| reduced_open : reduced []
| reduced_value a : reduced [Next a; Complete]
| reduced_empty : reduced [Complete]
| reduced_error e : reduced [Error e].

(** The observable has delivered [Complete] or [Error]. *)
Fixpoint terminated (o : Observable A) : bool :=
    match o with
    | [] => false
    | Next _ :: rest => terminated rest
    | Complete :: _ => true
    | Error _ :: _ => true
    end.

  (** The observable has delivered [Complete]. *)
Fixpoint completed (o : Observable A) : bool :=
    match o with
    | [] => false
    | Next _ :: rest => completed rest
    | Complete :: _ => true
    | Error _ :: _ => false
    end.

  (** The values delivered. *)
Fixpoint values (o : Observable A) : list A :=
    match o with
    | Next x :: rest => x :: values rest
    | _ => []
    end.
End Operators.

(** The source as a finite run of batches followed by completion. *)
Definition of_batches {A : Type} (batches : list A) : Observable A :=
  map Next batches ++ [Complete].

Section Subscription.
Context {A B : Type}.

  (** A subscriber of [pipeline source] stays subscribed to the source
      until the pipeline's output terminates. [consumed pipeline source]
      is the number of source notifications delivered up to that point:
      the length of the shortest prefix of the source on which the
      output has terminated, the whole source when there is none. *)
Fixpoint consumed_from (pipeline : Observable A -> Observable B)
           (seen rest : Observable A) : nat :=
    if terminated (pipeline seen) then List.length seen
    else match rest with
         | [] => List.length seen
         | n :: rest' => consumed_from pipeline (seen ++ [n]) rest'
         end.

Definition consumed (pipeline : Observable A -> Observable B)
             (source : Observable A) : nat :=
    consumed_from pipeline [] source.
End Subscription.

End Rx.

(* ================================================================== *)
(** ** src/extraction-task.ts                                          *)
(* ================================================================== *)

Module ExtractionTask.

(** Modelled from the spec: the Record type ([interfaces/tweet.ts] and
    [interfaces/tweet-set.ts] are not among the sources). A Record has a
    stable identifier, a body and metadata; the set holds it as an
    Immutable map of these fields. *)
Record Tweet : Type := mkTweet {
  id : string;
  text : string;
  author : string
}.

(** [Immutable.is] on two such maps: equal when every field is equal. *)
Definition Tweet_is (a b : Tweet) : bool :=
  String.eqb (id a) (id b)
  && String.eqb (text a) (text b)
  && String.eqb (author a) (author b).

Definition Tweet_eq_dec (a b : Tweet) : {a = b} + {a <> b}.
Proof. decide equality; apply string_dec. Defined.

(** [TweetSet]: an [OrderedSet] of tweet maps. *)
Definition TweetSet : Type := list Tweet.

Definition union (a b : TweetSet) : TweetSet := OrderedSet.union Tweet_is a b.

(** The identifiers of some records, in order. *)
Definition ids (s : list Tweet) : list string := map id s.

(** [tweet.toObject()] *)
Definition toObject (t : Tweet) : Tweet := t.

(** [EventCompleteRatio] *)
Record EventCompleteRatio : Type := mkRatio {
  complete : nat;
  total : JsNumber
}.

(** Modelled from the spec: the events of the Progress Channel
    ([interfaces/progress-event-emitter.ts] is not among the sources): a
    [progress] event carries a tag and, for extraction progress, a
    ratio; a [message] event carries a text. *)
Inductive ProgressableEvent : Type :=
| ProgressEvent (name : string) (ratio : option EventCompleteRatio)
| MessageEvent (text : string).

Definition EXPORT_TWEETS : string := "extractor:export:tweets".
Definition BOOKMARKED_TWEETS_EXTRACTION : string := "extractor:tweets:extraction".
Definition BOOKMARKED_TWEETS_EXTRACT_COMPLETE : string := "extractor:tweets:complete".

Definition PROGRESS_EVENTS : list string :=
  [ BOOKMARKED_TWEETS_EXTRACTION;
    BOOKMARKED_TWEETS_EXTRACT_COMPLETE;
    EXPORT_TWEETS ].

(** The fields of [TaskOptions] that the task reads itself. The
    callbacks appear as effects below. *)
Record TaskOptions : Type := mkOptions {
  maxLimit : JsNumber;
  fileName : option string
}.

(** The one collaborator whose failure the task handles: what
    [new JSONExporter(fileName).export(tweets)] does. *)
Record Collaborators : Type := mkCollaborators {
  JSONExporter_export : string -> list Tweet -> Completion unit
}.

(** An rxjs [Subscription]. *)
Record Subscription : Type := mkSubscription { closed : bool }.

Definition unsubscribe (s : Subscription) : Subscription :=
  {| closed := true |}.

(** The mutable fields of the task, and [forwarding]: the subscription
    that the constructor makes on the page manager's events. The
    constructor stores it nowhere, so no field of the source holds it;
    [eventForwarder] is a subscription of its own that holds nothing. *)
Record Task : Type := mkTask {
  eventForwarder : Subscription;
  tweetStream : Subscription;
  tweets : TweetSet;
  forwarding : Subscription
}.

(** [new ExtractionTask(options)]: the fields as they are initialized,
    and the constructor's subscription, open. *)
Definition new : Task :=
  {| eventForwarder := {| closed := false |};
     tweetStream := {| closed := false |};
     tweets := OrderedSet.empty;
     forwarding := {| closed := false |} |}.

Inductive SubscriptionField : Type := EventForwarder | TweetStream.

(** What the task does to the world, in order. *)
Inductive Effect : Type :=
| Unsubscribe (field : SubscriptionField)
| Emit (event : ProgressableEvent)
| ExportJSON (file : string) (tweets : list Tweet)
| ExportStdOut (tweets : list Tweet)
| ClosePageManager
| SuccessCallback
| ErrorCallback (err : JsError)
| OpenPageManager.

Definition M : Type -> Type := Method Task Effect.

Local Open Scope method_scope.

(** Modelled from the spec: [Progressable.emitProgressEvent] and
    [Progressable.emitMessageEvent] (the base class is not among the
    sources); a call raises one event of its kind on the Progress
    Channel. *)
Definition emitProgressEvent (name : string)
           (ratio : option EventCompleteRatio) : M unit :=
  Method.effect (Emit (ProgressEvent name ratio)).

Definition emitMessageEvent (text : string) : M unit :=
  Method.effect (Emit (MessageEvent text)).

(** [get numEvents()]; [pageManagerEvents] is
    [BookmarksPageManager.PROGRESS_EVENTS], a table of the page manager
    that is not among the sources. The sums are the sums of the source
    as long as the limit and they are safe integers, where doubles add
    without rounding; beyond that the source rounds and this does not.
    [NaN] and [-Infinity] are no counts and have no [JsNumber]. *)
Definition numEvents (pageManagerEvents : list string)
           (options : TaskOptions) : Z :=
  let pageManagerEvents := Z.of_nat (List.length pageManagerEvents) in
  let taskSpecificEvents := (Z.of_nat (List.length PROGRESS_EVENTS) - 1)%Z in
  let taskSpecificEvents :=
    match maxLimit options with
    | Finite limit => (taskSpecificEvents + limit)%Z
    | PositiveInfinity => taskSpecificEvents
    end in
  (pageManagerEvents + taskSpecificEvents)%Z.

(** The pipeline of [run()]: [extraction] is what
    [bookmarksPage$.pipe(switchMap(page => extractor.extract(page)))]
    delivers, that is the extractor's batches (or the error of a failed
    [open()]). *)
Definition tweets_pipeline (options : TaskOptions)
           (extraction : Rx.Observable TweetSet) : Rx.Observable TweetSet :=
  Rx.takeWhile
    (fun currentTweets =>
       size_leb (OrderedSet.size currentTweets) (maxLimit options))
    (Rx.reduce (fun currentTweets newTweets => union currentTweets newTweets)
               extraction).

Definition onExtractTweets (options : TaskOptions) (tweets' : TweetSet)
  : M unit :=
  Method.modify (fun this =>
    {| eventForwarder := eventForwarder this;
       tweetStream := tweetStream this;
       tweets := tweets';
       forwarding := forwarding this |}) ;;
  match maxLimit options with
  | PositiveInfinity => Method.ret tt
  | Finite _ =>
      numTweetsCollected <- Method.gets (fun this => OrderedSet.size (tweets this)) ;;
      let extractionCompletionRatio :=
        {| complete := numTweetsCollected; total := maxLimit options |} in
      emitProgressEvent BOOKMARKED_TWEETS_EXTRACTION
                        (Some extractionCompletionRatio)
  end.

Definition onError (err : JsError) : M unit :=
  emitMessageEvent (message err) ;;
  match stack err with
  | Some stack => emitMessageEvent stack
  | None => Method.ret tt
  end ;;
  Method.effect (ErrorCallback err).

Definition stopForwardingEvents : M unit :=
  Method.modify (fun this =>
    {| eventForwarder := unsubscribe (eventForwarder this);
       tweetStream := tweetStream this;
       tweets := tweets this;
       forwarding := forwarding this |}) ;;
  Method.effect (Unsubscribe EventForwarder).

Definition stopStreamingTweets : M unit :=
  Method.modify (fun this =>
    {| eventForwarder := eventForwarder this;
       tweetStream := unsubscribe (tweetStream this);
       tweets := tweets this;
       forwarding := forwarding this |}) ;;
  Method.effect (Unsubscribe TweetStream).

Definition emitCompleteEvent : M unit :=
  emitProgressEvent BOOKMARKED_TWEETS_EXTRACT_COMPLETE None.

(** [await exporter.export(tweets)] on a [JSONExporter]. *)
Definition exportToFile (world : Collaborators) (file : string)
           (tweets : list Tweet) : M unit :=
  Method.effect (ExportJSON file tweets) ;;
  match JSONExporter_export world file tweets with
  | Returned _ => Method.ret tt
  | Threw e => Method.throw e
  end.

Definition exportTweets (options : TaskOptions) (world : Collaborators)
           (tweets : list Tweet) : M unit :=
  Method.try_catch
    (match fileName options with
     | Some file =>
         if truthy (Some file) then exportToFile world file tweets
         else Method.ret tt
     | None => Method.ret tt
     end ;;
     emitProgressEvent EXPORT_TWEETS None)
    (fun err => emitMessageEvent "Failed to export tweets to file.").

Definition printTweetsToStdOut (tweets : list Tweet) : M unit :=
  Method.effect (ExportStdOut tweets).

Definition tweetMapsToTweets (tweets : TweetSet) (maxLimit : JsNumber)
  : list Tweet :=
  let tweetMapsArray := slice0 (OrderedSet.toArray tweets) maxLimit in
  map toObject tweetMapsArray.

Definition stop (options : TaskOptions) (world : Collaborators) : M unit :=
  stopForwardingEvents ;;
  stopStreamingTweets ;;
  emitCompleteEvent ;;
  tweetsArray <- Method.gets (fun this =>
                   tweetMapsToTweets (tweets this) (maxLimit options)) ;;
  exportTweets options world tweetsArray ;;
  printTweetsToStdOut tweetsArray ;;
  Method.effect ClosePageManager.

Definition onComplete (options : TaskOptions) (world : Collaborators)
  : M unit :=
  stop options world ;;
  Method.effect SuccessCallback.

(** [tweets$.subscribe(tweetsObserver)]: each notification goes to its
    handler, and nothing is delivered after [complete] or [error]. *)
Fixpoint subscribe (options : TaskOptions) (world : Collaborators)
         (tweets' : Rx.Observable TweetSet) : M unit :=
  match tweets' with
  | [] => Method.ret tt
  | Rx.Next tweets :: rest =>
      onExtractTweets options tweets ;; subscribe options world rest
  | Rx.Complete :: _ => onComplete options world
  | Rx.Error err :: _ => onError err
  end.

(** [run()]: [bookmarksPageManager.open()] is called first; the
    subscription is stored in [tweetStream] when it is made; the
    notifications arrive afterwards, since the page is opened through a
    promise. *)
Definition run (options : TaskOptions) (world : Collaborators)
           (extraction : Rx.Observable TweetSet) : M unit :=
  Method.effect OpenPageManager ;;
  Method.modify (fun this =>
    {| eventForwarder := eventForwarder this;
       tweetStream := {| closed := false |};
       tweets := tweets this;
       forwarding := forwarding this |}) ;;
  subscribe options world (tweets_pipeline options extraction).

(** The events the task raises itself on the Progress Channel among
    some effects. *)
Fixpoint emitted (effects : list Effect) : list ProgressableEvent :=
  match effects with
  | [] => []
  | Emit e :: rest => e :: emitted rest
  | _ :: rest => emitted rest
  end.

(** The arrays handed to the console exporter. *)
Fixpoint exported (effects : list Effect) : list (list Tweet) :=
  match effects with
  | [] => []
  | ExportStdOut tweets :: rest => tweets :: exported rest
  | _ :: rest => exported rest
  end.

(** An extraction-progress ratio event. *)
Definition is_extraction_progress (e : ProgressableEvent) : bool :=
  match e with
  | ProgressEvent name _ => String.eqb name BOOKMARKED_TWEETS_EXTRACTION
  | MessageEvent _ => false
  end.

(** An event of the extraction itself: progress ratio or completion. *)
Definition is_extraction_event (e : ProgressableEvent) : bool :=
  match e with
  | ProgressEvent name _ =>
      String.eqb name BOOKMARKED_TWEETS_EXTRACTION
      || String.eqb name BOOKMARKED_TWEETS_EXTRACT_COMPLETE
  | MessageEvent _ => false
  end.


(** The task once [stop()] has let go of both subscriptions. *)
Definition stopped (this : Task) : Task :=
  {| eventForwarder := unsubscribe (eventForwarder this);
     tweetStream := unsubscribe (tweetStream this);
     tweets := tweets this;
     forwarding := forwarding this |}.

Definition complete_event : ProgressableEvent :=
  ProgressEvent BOOKMARKED_TWEETS_EXTRACT_COMPLETE None.
Definition export_event : ProgressableEvent :=
  ProgressEvent EXPORT_TWEETS None.
Definition export_failed_event : ProgressableEvent :=
  MessageEvent "Failed to export tweets to file.".

(** The batches of the extractor that the subscription of [run()] takes
    in before it lets go of the source. *)
Definition batches_pulled (options : TaskOptions)
           (extraction : Rx.Observable TweetSet) : nat :=
  List.length (Rx.values
    (firstn (Rx.consumed (tweets_pipeline options) extraction) extraction)).

End ExtractionTask.

(* ================================================================== *)
(** ** The login client (class [Client])                               *)
(* ================================================================== *)

(** [PATHNAMES] of [page-manager.ts]: the pages the client tells apart. *)
Module PATHNAMES.
Inductive t : Type := bookmarks | challengeCode | twoFaCode | loggedOut.
End PATHNAMES.

(** The [PageManager] as the client uses it: the calls the client awaits
    and the one query it makes. The class itself is not among the
    sources, so it is an interface here. *)
Module PageManager.

Record Credentials : Type := mkCredentials {
  username : string;
  password : string
}.

Inductive Call : Type :=
| logIn (credentials : Credentials)
| enterConfirmationCode (code : string)
| enterTwoFactorCode (code : string)
| refreshWithBookmarksRedirect
| logOut
| tearDown.

(** An awaited call returns or rejects, and leaves the page manager in
    some state either way. *)
Class Interface (PM : Type) : Type := {
  perform : Call -> PM -> Completion unit * PM;
  currentUrlHasPath : PM -> PATHNAMES.t -> bool
}.

(** Whether a call returns, and the page manager it leaves behind. *)
Definition returns {PM : Type} `{Interface PM} (call : Call) (pm : PM)
  : bool :=
  match fst (perform call pm) with
  | Returned _ => true
  | Threw _ => false
  end.

Definition landed {PM : Type} `{Interface PM} (call : Call) (pm : PM) : PM :=
  snd (perform call pm).

End PageManager.

Module Client.

Inductive State : Type :=
| Inactive
| LoggedOut
| Needs2FACode
| NeedsConfirmationCode
| LoggedIn.

Definition State_eqb (a b : State) : bool :=
  match a, b with
  | Inactive, Inactive
  | LoggedOut, LoggedOut
  | Needs2FACode, Needs2FACode
  | NeedsConfirmationCode, NeedsConfirmationCode
  | LoggedIn, LoggedIn => true
  | _, _ => false
  end.

(** [ClientEvents] *)
Inductive ClientEvent : Type :=
| actionRequired (message : string)
| internalError (message : string) (rest : list string)
| userError (message : string) (rest : list string)
| success.

Inductive ClientEventKey : Type :=
| actionRequiredKey | internalErrorKey | userErrorKey | successKey.

Definition key_of (e : ClientEvent) : ClientEventKey :=
  match e with
  | actionRequired _ => actionRequiredKey
  | internalError _ _ => internalErrorKey
  | userError _ _ => userErrorKey
  | success => successKey
  end.

Definition ClientEventKey_eqb (a b : ClientEventKey) : bool :=
  match a, b with
  | actionRequiredKey, actionRequiredKey
  | internalErrorKey, internalErrorKey
  | userErrorKey, userErrorKey
  | successKey, successKey => true
  | _, _ => false
  end.

(** What a call of the client does to the world, in order. *)
Inductive Effect : Type :=
| Emit (event : ClientEvent)
| Perform (call : PageManager.Call)
| Warn (text : string).

Section WithPageManager.
Context {PM : Type} `{PageManager.Interface PM}.

(** The fields of a [Client]. *)
Record Client : Type := mkClient {
  pageManager : PM;
  pageManagerReady : bool;
  state : State;
  lastAuthAttemptFailed : bool;
  lastCodeAttemptFailed : bool
}.

(** [new Client()] over a fresh page manager. *)
Definition new (pm : PM) : Client :=
  {| pageManager := pm;
     pageManagerReady := false;
     state := LoggedOut;
     lastAuthAttemptFailed := false;
     lastCodeAttemptFailed := false |}.

Definition needsConfirmationCode (this : Client) : bool :=
  State_eqb (state this) NeedsConfirmationCode.

Definition needs2FACode (this : Client) : bool :=
  State_eqb (state this) Needs2FACode.

Definition loggedOut (this : Client) : bool :=
  State_eqb (state this) LoggedOut
  || needsConfirmationCode this
  || needs2FACode this.

Definition loggedIn (this : Client) : bool :=
  State_eqb (state this) LoggedIn.

Definition M : Type -> Type := Method Client Effect.

Local Open Scope method_scope.

Definition emit (e : ClientEvent) : M unit := Method.effect (Emit e).

(** [await this.pageManager.<call>]: when the call rejects, the method
    around it rejects at this point, as none of them catches. *)
Definition await (call : PageManager.Call) : M unit :=
  fun this =>
    (match fst (PageManager.perform call (pageManager this)) with
     | Returned _ => Returned tt
     | Threw e => Threw e
     end,
     {| pageManager := PageManager.landed call (pageManager this);
        pageManagerReady := pageManagerReady this;
        state := state this;
        lastAuthAttemptFailed := lastAuthAttemptFailed this;
        lastCodeAttemptFailed := lastCodeAttemptFailed this |},
     [Perform call]).

(** [this.pageManager.currentUrlHasPath(path)] *)
Definition atPath (path : PATHNAMES.t) : M bool :=
  Method.gets (fun this => PageManager.currentUrlHasPath (pageManager this) path).

Definition set_state (s : State) : M unit :=
  Method.modify (fun this =>
    {| pageManager := pageManager this;
       pageManagerReady := pageManagerReady this;
       state := s;
       lastAuthAttemptFailed := lastAuthAttemptFailed this;
       lastCodeAttemptFailed := lastCodeAttemptFailed this |}).

Definition set_lastAuthAttemptFailed (b : bool) : M unit :=
  Method.modify (fun this =>
    {| pageManager := pageManager this;
       pageManagerReady := pageManagerReady this;
       state := state this;
       lastAuthAttemptFailed := b;
       lastCodeAttemptFailed := lastCodeAttemptFailed this |}).

Definition set_lastCodeAttemptFailed (b : bool) : M unit :=
  Method.modify (fun this =>
    {| pageManager := pageManager this;
       pageManagerReady := pageManagerReady this;
       state := state this;
       lastAuthAttemptFailed := lastAuthAttemptFailed this;
       lastCodeAttemptFailed := b |}).

Definition assertPageManagerReady : M unit :=
  let errorMessage :=
    String.append
      "Page manager had not been initialized correctly."
      "The page manager is necessary to sign in on your behalf to Twitter and begin the process of fetching bookmarks." in
  ready <- Method.gets pageManagerReady ;;
  if negb ready then emit (internalError errorMessage [])
  else Method.ret tt.

Definition handleLoginIssue : M unit :=
  atChallengeCode <- atPath PATHNAMES.challengeCode ;;
  if atChallengeCode then
    set_state NeedsConfirmationCode ;;
    emit (actionRequired "Your confirmation code is necessary to proceed.")
  else
    atTwoFaCode <- atPath PATHNAMES.twoFaCode ;;
    if atTwoFaCode then
      set_state Needs2FACode ;;
      emit (actionRequired "Your 2FA code is necessary to proceed. Please check your device.")
    else
      set_lastAuthAttemptFailed true ;;
      await PageManager.refreshWithBookmarksRedirect ;;
      emit (userError "Your credentials were incorrect." []).

Definition logIn (credentials : PageManager.Credentials) : M unit :=
  ready <- Method.gets pageManagerReady ;;
  if negb ready then
    emit (internalError "The browser hasn't been initialized yet." [])
  else
    set_lastAuthAttemptFailed false ;;
    await (PageManager.logIn credentials) ;;
    atBookmarks <- atPath PATHNAMES.bookmarks ;;
    if negb atBookmarks then handleLoginIssue
    else
      set_state LoggedIn ;;
      emit success.

Definition enterConfirmationCode (code : string) : M unit :=
  assertPageManagerReady ;;
  set_lastCodeAttemptFailed false ;;
  await (PageManager.enterConfirmationCode code) ;;
  stillThere <- atPath PATHNAMES.challengeCode ;;
  if stillThere then
    set_lastCodeAttemptFailed true ;;
    emit (userError "Your challenge code was incorrect." [])
  else Method.ret tt.

Definition enterTwoFactorCode (code : string) : M unit :=
  assertPageManagerReady ;;
  set_lastCodeAttemptFailed false ;;
  await (PageManager.enterTwoFactorCode code) ;;
  stillThere <- atPath PATHNAMES.twoFaCode ;;
  if stillThere then
    set_lastCodeAttemptFailed true ;;
    emit (userError "Your 2FA code was incorrect." [])
  else Method.ret tt.

Definition logOut (emitEvent : bool) : M unit :=
  ready <- Method.gets pageManagerReady ;;
  if negb ready then Method.ret tt
  else
    await PageManager.logOut ;;
    atLoggedOut <- atPath PATHNAMES.loggedOut ;;
    if atLoggedOut then
      set_state LoggedOut ;;
      if emitEvent then emit success else Method.ret tt
    else Method.effect (Warn "Not at logged out page!").

Definition tearDown : M unit :=
  isLoggedIn <- Method.gets loggedIn ;;
  (if isLoggedIn then logOut false else Method.ret tt) ;;
  await PageManager.tearDown ;;
  emit success.

End WithPageManager.

Arguments Client PM : clear implicits.

(** The events a call emitted, and how many of them carry a given key. *)
Fixpoint emitted (effects : list Effect) : list ClientEvent :=
  match effects with
  | [] => []
  | Emit e :: rest => e :: emitted rest
  | _ :: rest => emitted rest
  end.

Definition count_events (key : ClientEventKey) (effects : list Effect) : nat :=
  List.length (filter (fun e => ClientEventKey_eqb (key_of e) key)
                      (emitted effects)).

(** The codes a call submitted to the session. *)
Fixpoint submitted (effects : list Effect) : list string :=
  match effects with
  | [] => []
  | Perform (PageManager.enterConfirmationCode code) :: rest =>
      code :: submitted rest
  | Perform (PageManager.enterTwoFactorCode code) :: rest =>
      code :: submitted rest
  | _ :: rest => submitted rest
  end.

End Client.

(* ================================================================== *)
(** ** Sample inputs                                                   *)
(* ================================================================== *)

Module Samples.
Import ExtractionTask.

Definition tweet (n : string) : Tweet :=
  {| id := n; text := "bookmarked"; author := "someone" |}.

Definition batch1 : TweetSet := [tweet "1"; tweet "2"; tweet "3"].
Definition batch2 : TweetSet := [tweet "4"; tweet "5"; tweet "6"].
Definition batch3 : TweetSet := [tweet "7"; tweet "8"; tweet "9"].

Definition limit5 : TaskOptions :=
  {| maxLimit := Finite 5; fileName := None |}.
Definition limit10 : TaskOptions :=
  {| maxLimit := Finite 10; fileName := None |}.
Definition unbounded : TaskOptions :=
  {| maxLimit := PositiveInfinity; fileName := None |}.
Definition limit5_to_file : TaskOptions :=
  {| maxLimit := Finite 5; fileName := Some "bookmarks.json" |}.

(** A file system that takes every file, and one that takes none. *)
Definition writable : Collaborators :=
  {| JSONExporter_export := fun _ _ => Returned tt |}.
Definition read_only : Collaborators :=
  {| JSONExporter_export := fun _ _ =>
       Threw {| message := "EACCES: permission denied"; stack := None |} |}.

(** The same tweet seen twice, the second time with another body. *)
Definition first_seen : Tweet :=
  {| id := "1"; text := "first body"; author := "someone" |}.
Definition seen_again : Tweet :=
  {| id := "1"; text := "edited body"; author := "someone" |}.

(** A scripted browser session as page manager: it shows one of the
    pages the client tells apart, or some other page. *)
Definition Page : Type := option PATHNAMES.t.

Definition PATHNAMES_eqb (a b : PATHNAMES.t) : bool :=
  match a, b with
  | PATHNAMES.bookmarks, PATHNAMES.bookmarks
  | PATHNAMES.challengeCode, PATHNAMES.challengeCode
  | PATHNAMES.twoFaCode, PATHNAMES.twoFaCode
  | PATHNAMES.loggedOut, PATHNAMES.loggedOut => true
  | _, _ => false
  end.

Definition scripted_perform (call : PageManager.Call) (page : Page) : Page :=
  match call with
  | PageManager.logIn credentials =>
      if String.eqb (PageManager.password credentials) "correct horse"
      then Some PATHNAMES.bookmarks
      else if String.eqb (PageManager.password credentials) "with 2fa"
      then Some PATHNAMES.twoFaCode
      else None
  | PageManager.enterConfirmationCode code
  | PageManager.enterTwoFactorCode code =>
      if String.eqb code "123456" then Some PATHNAMES.bookmarks else page
  | PageManager.refreshWithBookmarksRedirect => None
  | PageManager.logOut => Some PATHNAMES.loggedOut
  | PageManager.tearDown => None
  end.

#[export] Instance scripted : PageManager.Interface Page := {|
  PageManager.perform call page := (Returned tt, scripted_perform call page);
  PageManager.currentUrlHasPath page path :=
    match page with
    | Some shown => PATHNAMES_eqb shown path
    | None => false
    end
|}.

Definition good_credentials : PageManager.Credentials :=
  {| PageManager.username := "reader"; PageManager.password := "correct horse" |}.
Definition bad_credentials : PageManager.Credentials :=
  {| PageManager.username := "reader"; PageManager.password := "guess" |}.

(** A client that was never initialized, and one that was. *)
Definition fresh_client : Client.Client Page := Client.new None.
Definition ready_client : Client.Client Page :=
  {| Client.pageManager := None;
     Client.pageManagerReady := true;
     Client.state := Client.LoggedOut;
     Client.lastAuthAttemptFailed := false;
     Client.lastCodeAttemptFailed := false |}.
(** An initialized client that waits for the two-factor code. *)
Definition waiting_client : Client.Client Page :=
  {| Client.pageManager := Some PATHNAMES.twoFaCode;
     Client.pageManagerReady := true;
     Client.state := Client.Needs2FACode;
     Client.lastAuthAttemptFailed := false;
     Client.lastCodeAttemptFailed := false |}.

End Samples.

(* ================================================================== *)
(** ** The login client: [init], and calls one after the other         *)
(* ================================================================== *)

(** [NAME_TO_BROWSER]: an object literal with three keys. A lookup with
    another name falls through to [Object.prototype], whose members are
    objects or functions and so are truthy. *)
Module NAME_TO_BROWSER.

Inductive BrowserType : Type := chromium | firefox | webkit.

Inductive Value : Type :=
| Browser (browserType : BrowserType)
| Inherited (member : string).

Definition Object_prototype : list string :=
  [ "constructor"; "__defineGetter__"; "__defineSetter__"; "hasOwnProperty";
    "__lookupGetter__"; "__lookupSetter__"; "isPrototypeOf";
    "propertyIsEnumerable"; "toString"; "valueOf"; "__proto__";
    "toLocaleString" ].

(** [NAME_TO_BROWSER[browserName]]; [None] is [undefined]. *)
Definition lookup (browserName : string) : option Value :=
  if String.eqb browserName "chromium" then Some (Browser chromium)
  else if String.eqb browserName "firefox" then Some (Browser firefox)
  else if String.eqb browserName "webkit" then Some (Browser webkit)
  else if existsb (String.eqb browserName) Object_prototype
       then Some (Inherited browserName)
       else None.

End NAME_TO_BROWSER.

(** The two calls of the page manager that [init] makes. The start-up
    of the browser is the one that can fail. *)
Module Startup.

Class Interface (PM : Type) : Type := {
  setBrowserType : NAME_TO_BROWSER.Value -> PM -> PM;
  init : PM -> Completion unit * PM
}.

End Startup.

Module ClientInit.
Import Client.

Inductive Effect : Type :=
| Emit (event : ClientEvent)
| SetBrowserType (browserType : NAME_TO_BROWSER.Value)
| Init.

(** The double quote, for the one message that quotes names. *)
Definition dq : string := String (Ascii.ascii_of_nat 34) EmptyString.

Definition unsupported_browser : string :=
  String.concat EmptyString
    [ "Please choose from "; dq; "chromium"; dq; ", "; dq; "webkit"; dq;
      ", or "; dq; "firefox"; dq; "." ].

Section WithPageManager.
Context {PM : Type} `{Startup.Interface PM}.

Definition with_pageManager (pm : PM) (this : Client PM) : Client PM :=
  {| pageManager := pm;
     pageManagerReady := pageManagerReady this;
     state := state this;
     lastAuthAttemptFailed := lastAuthAttemptFailed this;
     lastCodeAttemptFailed := lastCodeAttemptFailed this |}.

Local Open Scope method_scope.

(** [await this.pageManager.init()] *)
Definition await_init : Method (Client PM) Effect unit :=
  fun this =>
    match Startup.init (pageManager this) with
    | (Returned _, pm) => (Returned tt, with_pageManager pm this, [Init])
    | (Threw e, pm) => (Threw e, with_pageManager pm this, [Init])
    end.

Definition init (browserName : string) : Method (Client PM) Effect unit :=
  match NAME_TO_BROWSER.lookup browserName with
  | None => Method.effect (Emit (userError unsupported_browser []))
  | Some browserType =>
      Method.modify (fun this =>
        with_pageManager
          (Startup.setBrowserType browserType (pageManager this)) this) ;;
      Method.effect (SetBrowserType browserType) ;;
      await_init ;;
      Method.modify (fun this =>
        {| pageManager := pageManager this;
           pageManagerReady := true;
           state := state this;
           lastAuthAttemptFailed := lastAuthAttemptFailed this;
           lastCodeAttemptFailed := lastCodeAttemptFailed this |}) ;;
      Method.effect (Emit success)
  end.

End WithPageManager.

Fixpoint emitted (effects : list Effect) : list ClientEvent :=
  match effects with
  | [] => []
  | Emit e :: rest => e :: emitted rest
  | _ :: rest => emitted rest
  end.

End ClientInit.

(** A client in use: the public calls, one after the other. Each call
    runs on the client the call before it left behind, also when that
    call threw. *)
Module Session.
Import Client.

Inductive Operation : Type :=
| Init (browserName : string)
| LogIn (credentials : PageManager.Credentials)
| EnterConfirmationCode (code : string)
| EnterTwoFactorCode (code : string)
| LogOut (emitEvent : bool)
| TearDown.

Section WithPageManager.
Context {PM : Type} `{PageManager.Interface PM} `{Startup.Interface PM}.

Definition step (this : Client PM) (op : Operation) : Client PM :=
  match op with
  | Init browserName => Method.after (ClientInit.init browserName this)
  | LogIn credentials => Method.after (logIn credentials this)
  | EnterConfirmationCode code =>
      Method.after (enterConfirmationCode code this)
  | EnterTwoFactorCode code => Method.after (enterTwoFactorCode code this)
  | LogOut emitEvent => Method.after (logOut emitEvent this)
  | TearDown => Method.after (tearDown this)
  end.

Definition steps (ops : list Operation) (this : Client PM) : Client PM :=
  fold_left step ops this.

(** What every call keeps: the state is never [Inactive], and a client
    that has left [LoggedOut] is ready. *)
Definition kept (this : Client PM) : Prop :=
  state this <> Inactive
  /\ (state this = LoggedOut \/ pageManagerReady this = true).

End WithPageManager.

(** The calls made to the page manager among some effects. *)
Fixpoint performed (effects : list Effect) : list PageManager.Call :=
  match effects with
  | [] => []
  | Perform call :: rest => call :: performed rest
  | _ :: rest => performed rest
  end.

(** The warnings written to the console among some effects. *)
Fixpoint warned (effects : list Effect) : list string :=
  match effects with
  | [] => []
  | Warn text :: rest => text :: warned rest
  | _ :: rest => warned rest
  end.

End Session.

(* ================================================================== *)
(** ** The extraction task: what a run leaves to observe               *)
(* ================================================================== *)

Module Run.
Import ExtractionTask.

(** The error an observable ends with, if it ends with one. *)
Fixpoint failure {A : Type} (o : Rx.Observable A) : option JsError :=
  match o with
  | [] => None
  | Rx.Next _ :: rest => failure rest
  | Rx.Complete :: _ => None
  | Rx.Error e :: _ => Some e
  end.

(** What [reduce] has accumulated over some batches: the first batch as
    it came, united with the later ones in turn. *)
Definition accumulate (batches : list TweetSet) : option TweetSet :=
  match batches with
  | [] => None
  | first :: later => Some (fold_left union later first)
  end.

(** The task as [run()] leaves it before any notification arrives. *)
Definition subscribed (this : Task) : Task :=
  {| eventForwarder := eventForwarder this;
     tweetStream := {| closed := false |};
     tweets := tweets this;
     forwarding := forwarding this |}.

Definition is_close (e : Effect) : bool :=
  match e with ClosePageManager => true | _ => false end.
Definition is_file_export (e : Effect) : bool :=
  match e with ExportJSON _ _ => true | _ => false end.

Definition count (p : Effect -> bool) (effects : list Effect) : nat :=
  List.length (filter p effects).

(** The file that [exportTweets] writes to, if any. *)
Definition file_of (options : TaskOptions) : option string :=
  if truthy (fileName options) then fileName options else None.

(** What [exportTweets] does with an array. *)
Definition export_effects (options : TaskOptions) (world : Collaborators)
           (tweets : list Tweet) : list Effect :=
  match file_of options with
  | Some file =>
      [ ExportJSON file tweets;
        Emit (match JSONExporter_export world file tweets with
              | Returned _ => export_event
              | Threw _ => export_failed_event
              end) ]
  | None => [Emit export_event]
  end.

(** What [stop()] does on a task that holds the set [held]. *)
Definition stop_effects (options : TaskOptions) (world : Collaborators)
           (held : TweetSet) : list Effect :=
  let tweetsArray := tweetMapsToTweets held (maxLimit options) in
  [Unsubscribe EventForwarder; Unsubscribe TweetStream; Emit complete_event]
    ++ export_effects options world tweetsArray
    ++ [ExportStdOut tweetsArray; ClosePageManager].

(** What [onError] does with an error. *)
Definition error_effects (err : JsError) : list Effect :=
  Emit (MessageEvent (message err))
    :: match stack err with
       | Some trace => [Emit (MessageEvent trace)]
       | None => []
       end
    ++ [ErrorCallback err].

(** The set a completed pipeline delivers, if it delivers one: what was
    accumulated, when that is within the limit. *)
Definition delivered (options : TaskOptions) (batches : list TweetSet)
  : option TweetSet :=
  match accumulate batches with
  | Some all =>
      if size_leb (OrderedSet.size all) (maxLimit options)
      then Some all else None
  | None => None
  end.

(** Modelled from the spec: the events that the [BookmarksPageManager]
    raises while it opens and while it closes (the class is not among
    the sources). *)
Record PageManagerEvents : Type := mkPageManagerEvents {
  opening : list ProgressableEvent;
  closing : list ProgressableEvent
}.

(** Modelled from the spec: [event.handle(task)] of the constructor's
    subscription ([interfaces/progress-event-emitter.ts] is not among
    the sources), which raises the page manager's event again on the
    task's channel. This is what a listener of the Progress Channel
    sees while the task does [effects]: the task's own events, and, as
    long as the constructor's subscription is open, the events of the
    page manager where it opens and where it closes. *)
Fixpoint channel (pm : PageManagerEvents) (forwarding : Subscription)
         (effects : list Effect) : list ProgressableEvent :=
  match effects with
  | [] => []
  | Emit e :: rest => e :: channel pm forwarding rest
  | OpenPageManager :: rest =>
      (if closed forwarding then [] else opening pm)
        ++ channel pm forwarding rest
  | ClosePageManager :: rest =>
      (if closed forwarding then [] else closing pm)
        ++ channel pm forwarding rest
  | _ :: rest => channel pm forwarding rest
  end.

(** The ratios of the extraction-progress events among some events. *)
Fixpoint ratios (events : list ProgressableEvent)
  : list (option EventCompleteRatio) :=
  match events with
  | [] => []
  | ProgressEvent name ratio :: rest =>
      if String.eqb name BOOKMARKED_TWEETS_EXTRACTION
      then ratio :: ratios rest
      else ratios rest
  | MessageEvent _ :: rest => ratios rest
  end.

End Run.

(* ================================================================== *)
(** ** More sample inputs                                              *)
(* ================================================================== *)

Module Fixtures.
Import Samples.

(** A browser that remembers the browser type it was given and starts
    only when that is one of the three browsers. *)
Record Browser : Type := mkBrowser {
  chosen : option NAME_TO_BROWSER.Value;
  started : bool;
  shown : Page
}.

#[export] Instance browser_pages : PageManager.Interface Browser := {|
  PageManager.perform call browser :=
    (Returned tt,
     {| chosen := chosen browser;
        started := started browser;
        shown := scripted_perform call (shown browser) |});
  PageManager.currentUrlHasPath browser path :=
    PageManager.currentUrlHasPath (shown browser) path
|}.

#[export] Instance browser_startup : Startup.Interface Browser := {|
  Startup.setBrowserType value browser :=
    {| chosen := Some value;
       started := started browser;
       shown := shown browser |};
  Startup.init browser :=
    match chosen browser with
    | Some (NAME_TO_BROWSER.Browser _) =>
        (Returned tt,
         {| chosen := chosen browser; started := true; shown := shown browser |})
    | _ =>
        (Threw {| message := "browserType.launch is not a function";
                  stack := None |},
         browser)
    end
|}.

Definition unpacked : Browser :=
  {| chosen := None; started := false; shown := None |}.

(** A client that is logged in. *)
Definition logged_in_client : Client.Client Page :=
  {| Client.pageManager := Some PATHNAMES.bookmarks;
     Client.pageManagerReady := true;
     Client.state := Client.LoggedIn;
     Client.lastAuthAttemptFailed := false;
     Client.lastCodeAttemptFailed := false |}.

(** A client that waits for the confirmation code. *)
Definition challenged_client : Client.Client Page :=
  {| Client.pageManager := Some PATHNAMES.challengeCode;
     Client.pageManagerReady := true;
     Client.state := Client.NeedsConfirmationCode;
     Client.lastAuthAttemptFailed := false;
     Client.lastCodeAttemptFailed := false |}.

(** A client over a started browser that is logged in. *)
Definition signed_in : Client.Client Browser :=
  {| Client.pageManager :=
       {| chosen := Some (NAME_TO_BROWSER.Browser NAME_TO_BROWSER.chromium);
          started := true;
          shown := Some PATHNAMES.bookmarks |};
     Client.pageManagerReady := true;
     Client.state := Client.LoggedIn;
     Client.lastAuthAttemptFailed := false;
     Client.lastCodeAttemptFailed := false |}.

Definition two_factor_credentials : PageManager.Credentials :=
  {| PageManager.username := "reader"; PageManager.password := "with 2fa" |}.

(** A session that loses its connection once the login has been
    submitted: every later call rejects. *)
Record Dropped : Type := mkDropped { before_drop : Page }.

Definition connection_lost : JsError :=
  {| message := "net::ERR_INTERNET_DISCONNECTED"; stack := None |}.

#[export] Instance dropped_pages : PageManager.Interface Dropped := {|
  PageManager.perform call session :=
    match call with
    | PageManager.logIn _ =>
        (Returned tt,
         {| before_drop := scripted_perform call (before_drop session) |})
    | _ => (Threw connection_lost, session)
    end;
  PageManager.currentUrlHasPath session path :=
    PageManager.currentUrlHasPath (before_drop session) path
|}.

(** A ready client, logged out, and a logged-in one, on such a
    session. *)
Definition dropped_client : Client.Client Dropped :=
  {| Client.pageManager := {| before_drop := None |};
     Client.pageManagerReady := true;
     Client.state := Client.LoggedOut;
     Client.lastAuthAttemptFailed := false;
     Client.lastCodeAttemptFailed := false |}.

Definition dropped_signed_in : Client.Client Dropped :=
  {| Client.pageManager := {| before_drop := Some PATHNAMES.bookmarks |};
     Client.pageManagerReady := true;
     Client.state := Client.LoggedIn;
     Client.lastAuthAttemptFailed := false;
     Client.lastCodeAttemptFailed := false |}.

(** A page manager that reports when it has opened and closed. *)
Definition reporting : Run.PageManagerEvents :=
  {| Run.opening :=
       [ExtractionTask.ProgressEvent "bookmarks:page:open" None];
     Run.closing :=
       [ExtractionTask.ProgressEvent "bookmarks:page:close" None] |}.

Definition disk_full : JsError :=
  {| message := "ENOSPC: no space left on device";
     stack := Some "at JSONExporter.export" |}.

Definition timed_out : JsError :=
  {| message := "Navigation timeout exceeded"; stack := None |}.

End Fixtures.

(* ================================================================== *)
(** * Properties                                                       *)
(* ================================================================== *)

(** ** OrderedSet: membership, order and duplicates *)

Module OrderedSetFacts.
Import OrderedSet.

Section Elements.
Context {A : Type} (eqb : A -> A -> bool).
Hypothesis eqb_eq : forall x y, eqb x y = true <-> x = y.

Lemma has_In (s : list A) (x : A) : has eqb s x = true <-> In x s.
Proof.
  unfold has. rewrite existsb_exists. split.
  - intros [y [Hy Hxy]]. apply eqb_eq in Hxy. now subst.
  - intros Hx. exists x. split; [assumption | now apply eqb_eq].
Qed.

Lemma has_false (s : list A) (x : A) : has eqb s x = false <-> ~ In x s.
Proof.
  rewrite <- has_In. destruct (has eqb s x); split; congruence.
Qed.

Lemma add_In (s : list A) (x y : A) :
  In y (add eqb s x) <-> In y s \/ y = x.
Proof.
  unfold add. destruct (has eqb s x) eqn:Hx.
  - apply has_In in Hx. split; [now left | intros [Hy | ->]; assumption].
  - rewrite in_app_iff. simpl. intuition congruence.
Qed.

Lemma union_In (iter s : list A) (y : A) :
  In y (union eqb s iter) <-> In y s \/ In y iter.
Proof.
  unfold union. revert s.
  induction iter as [| x iter IH]; intros s; simpl.
  - tauto.
  - rewrite IH, add_In. intuition congruence.
Qed.

Lemma add_NoDup (s : list A) (x : A) : NoDup s -> NoDup (add eqb s x).
Proof.
  intros Hs. unfold add. destruct (has eqb s x) eqn:Hx; [assumption |].
  apply has_false in Hx.
  apply NoDup_rev in Hs. rewrite <- (rev_involutive (s ++ [x])).
  apply NoDup_rev. rewrite rev_app_distr. simpl.
  constructor; [now rewrite <- in_rev | assumption].
Qed.

Lemma union_NoDup (iter s : list A) : NoDup s -> NoDup (union eqb s iter).
Proof.
  unfold union. revert s.
  induction iter as [| x iter IH]; intros s Hs; simpl;
    [assumption | apply IH, add_NoDup, Hs].
Qed.

(** What a union adds comes after what was there: the elements of [s]
    keep their places. *)
Lemma add_extends (s : list A) (x : A) : exists tail, add eqb s x = s ++ tail.
Proof.
  unfold add. destruct (has eqb s x).
  - exists []. now rewrite app_nil_r.
  - now exists [x].
Qed.

Lemma union_extends (iter s : list A) :
  exists tail, union eqb s iter = s ++ tail.
Proof.
  unfold union. revert s.
  induction iter as [| x iter IH]; intros s; simpl.
  - exists []. now rewrite app_nil_r.
  - destruct (add_extends s x) as [t1 Ht1].
    destruct (IH (add eqb s x)) as [t2 Ht2].
    exists (t1 ++ t2). now rewrite Ht2, Ht1, app_assoc.
Qed.

Lemma union_keeps_position (iter s : list A) (i : nat) (x : A) :
  nth_error s i = Some x -> nth_error (union eqb s iter) i = Some x.
Proof.
  intros Hi. destruct (union_extends iter s) as [tail ->].
  rewrite nth_error_app1; [assumption |].
  apply nth_error_Some. congruence.
Qed.

(** A union with values that are all present changes nothing. *)
Lemma union_absorbs (iter s : list A) :
  (forall x, In x iter -> In x s) -> union eqb s iter = s.
Proof.
  unfold union. revert s.
  induction iter as [| x iter IH]; intros s Hsub; simpl; [reflexivity |].
  assert (Hx : add eqb s x = s).
  { unfold add. destruct (has eqb s x) eqn:E; [reflexivity |].
    apply has_false in E. exfalso. apply E, Hsub. now left. }
  rewrite Hx. apply IH. intros y Hy. apply Hsub. now right.
Qed.

Lemma union_idempotent (s : list A) : union eqb s s = s.
Proof. apply union_absorbs. auto. Qed.

Lemma union_comm_In (a b : list A) (x : A) :
  In x (union eqb a b) <-> In x (union eqb b a).
Proof. rewrite !union_In. tauto. Qed.

Lemma occurrences_absent (s : list A) (x : A) :
  ~ In x s -> occurrences eqb s x = 0.
Proof.
  unfold occurrences. induction s as [| y s IH]; intros Hx; simpl.
  - reflexivity.
  - destruct (eqb x y) eqn:E.
    + apply eqb_eq in E. subst. exfalso. apply Hx. now left.
    + apply IH. intros Hin. apply Hx. now right.
Qed.

Lemma occurrences_NoDup (s : list A) (x : A) :
  NoDup s -> In x s -> occurrences eqb s x = 1.
Proof.
  unfold occurrences. induction 1 as [| y s Hy Hs IH]; intros Hx.
  - destruct Hx.
  - simpl. destruct (eqb x y) eqn:E.
    + apply eqb_eq in E. subst. simpl. f_equal.
      now apply occurrences_absent.
    + destruct Hx as [-> | Hx]; [| now apply IH].
      assert (eqb x x = true) by now apply eqb_eq. congruence.
Qed.

(** The size of a set built from a batch is the number of distinct
    values of the batch. *)
Lemma size_distinct (dec : forall x y : A, {x = y} + {x <> y})
      (iter : list A) :
  size (union eqb empty iter) = List.length (nodup dec iter).
Proof.
  unfold size. apply Permutation_length, NoDup_Permutation.
  - apply union_NoDup. constructor.
  - apply NoDup_nodup.
  - intros x. rewrite union_In, nodup_In. unfold empty. simpl. tauto.
Qed.

Lemma size_union_ge (iter s : list A) :
  size s <= size (union eqb s iter).
Proof.
  unfold size. destruct (union_extends iter s) as [tail ->].
  rewrite length_app. lia.
Qed.

End Elements.
End OrderedSetFacts.

(** ** RxJS: what reduce and takeWhile deliver *)

Module RxFacts.
Import Rx.

Section Operators.
Context {A : Type}.

Lemma reduce_from_reduced (f : A -> A -> A) (source : Observable A) :
  forall acc, reduced (reduce_from f acc source).
Proof.
  induction source as [| [x | | e] rest IH]; intros acc; simpl.
  - constructor.
  - apply IH.
  - destruct acc; constructor.
  - constructor.
Qed.

(** Nothing is delivered while the source has not completed. *)
Lemma reduce_from_open (f : A -> A -> A) (batches : list A) :
  forall acc, reduce_from f acc (map Next batches) = [].
Proof.
  induction batches as [| b batches IH]; intros acc; simpl;
    [reflexivity | apply IH].
Qed.

Lemma reduce_from_completed (f : A -> A -> A) (source : Observable A) :
  forall acc, completed source = true ->
    completed (reduce_from f acc source) = true.
Proof.
  induction source as [| [x | | e] rest IH]; intros acc Hc; simpl in *.
  - discriminate.
  - now apply IH.
  - now destruct acc.
  - discriminate.
Qed.

Lemma reduce_of_batches (f : A -> A -> A) (b : A) (batches : list A) :
  reduce f (of_batches (b :: batches)) = [Next (fold_left f batches b); Complete].
Proof.
  unfold reduce, of_batches. simpl.
  generalize b. induction batches as [| b' batches IH]; intros b0; simpl.
  - reflexivity.
  - apply IH.
Qed.

Lemma takeWhile_reduced (p : A -> bool) (o : Observable A) :
  reduced o -> reduced (takeWhile p o).
Proof.
  intros [| a | | e]; simpl; try constructor.
  destruct (p a); constructor.
Qed.

Lemma takeWhile_completed (p : A -> bool) (o : Observable A) :
  completed o = true -> completed (takeWhile p o) = true.
Proof.
  induction o as [| [x | | e] rest IH]; simpl; intros Hc;
    try discriminate; try reflexivity.
  destruct (p x); simpl; [now apply IH | reflexivity].
Qed.

Lemma reduced_values (o : Observable A) :
  reduced o -> List.length (values o) <= 1.
Proof. intros [| a | | e]; simpl; lia. Qed.

End Operators.
End RxFacts.

(** ** The extraction task *)

Module ExtractionTaskFacts.
Import ExtractionTask.

Lemma Tweet_is_eq (a b : Tweet) : Tweet_is a b = true <-> a = b.
Proof.
  unfold Tweet_is. rewrite !andb_true_iff, !String.eqb_eq.
  destruct a, b; simpl. split.
  - intros [[-> ->] ->]. reflexivity.
  - intros E. injection E as -> -> ->. auto.
Qed.

(** *** The pipeline of [run()] *)

Lemma tweets_pipeline_reduced options extraction :
  Rx.reduced (tweets_pipeline options extraction).
Proof.
  unfold tweets_pipeline, Rx.reduce.
  apply RxFacts.takeWhile_reduced, RxFacts.reduce_from_reduced.
Qed.

(** The pipeline delivers one set at most. *)
Lemma tweets_pipeline_one_value options extraction :
  List.length (Rx.values (tweets_pipeline options extraction)) <= 1.
Proof. apply RxFacts.reduced_values, tweets_pipeline_reduced. Qed.

(** As long as the extractor has not completed, the pipeline has
    delivered nothing and has not completed either. *)
Lemma tweets_pipeline_open options (batches : list TweetSet) :
  tweets_pipeline options (map Rx.Next batches) = [].
Proof.
  unfold tweets_pipeline, Rx.reduce.
  now rewrite RxFacts.reduce_from_open.
Qed.

Lemma tweets_pipeline_completed options extraction :
  Rx.completed extraction = true ->
  Rx.completed (tweets_pipeline options extraction) = true.
Proof.
  intros Hc. unfold tweets_pipeline, Rx.reduce.
  now apply RxFacts.takeWhile_completed, RxFacts.reduce_from_completed.
Qed.

Lemma consumed_from_batches options (rest seen : list TweetSet) :
  Rx.consumed_from (tweets_pipeline options)
    (map Rx.Next seen) (Rx.of_batches rest)
  = List.length seen + List.length rest + 1.
Proof.
  revert seen. unfold Rx.of_batches.
  induction rest as [| b rest IH]; intros seen; simpl.
  - rewrite tweets_pipeline_open. simpl.
    destruct (Rx.terminated _); rewrite length_app, length_map; simpl; lia.
  - rewrite tweets_pipeline_open. simpl.
    change (map Rx.Next seen ++ [Rx.Next b])
      with (map Rx.Next seen ++ map Rx.Next [b]).
    rewrite <- map_app, IH, length_app. simpl. lia.
Qed.

Lemma values_of_batches {A} (batches : list A) :
  Rx.values (Rx.of_batches batches) = batches.
Proof.
  unfold Rx.of_batches.
  induction batches as [| b batches IH]; simpl; [| rewrite IH]; reflexivity.
Qed.

(** Whatever the limit, the subscription of [run()] takes in every batch
    of an extractor that completes. *)
Lemma batches_pulled_all options (batches : list TweetSet) :
  batches_pulled options (Rx.of_batches batches) = List.length batches.
Proof.
  unfold batches_pulled, Rx.consumed.
  pose proof (consumed_from_batches options batches []) as Hall.
  simpl in Hall. rewrite Hall.
  rewrite firstn_all2.
  - now rewrite values_of_batches.
  - unfold Rx.of_batches. rewrite length_app, length_map. simpl. lia.
Qed.

(** *** [exportTweets] and [stop] *)

Ltac method_steps :=
  unfold Method.bind, Method.try_catch, Method.effect, Method.modify,
    Method.gets, Method.ret, Method.throw; simpl.

Lemma exportTweets_returns options world arr this :
  exists l,
    exportTweets options world arr this = (Returned tt, this, l)
    /\ (emitted l = [export_event] \/ emitted l = [export_failed_event]).
Proof.
  unfold exportTweets, exportToFile, emitProgressEvent, emitMessageEvent.
  destruct (fileName options) as [file |]; [| method_steps; eauto].
  destruct (truthy (Some file)); [| method_steps; eauto].
  method_steps.
  destruct (JSONExporter_export world file arr) as [[] | e]; simpl; eauto.
Qed.


Lemma stop_runs options world this l :
  let tweetsArray := tweetMapsToTweets (tweets this) (maxLimit options) in
  exportTweets options world tweetsArray (stopped this)
  = (Returned tt, stopped this, l) ->
  stop options world this
  = (Returned tt, stopped this,
     [Unsubscribe EventForwarder; Unsubscribe TweetStream; Emit complete_event]
       ++ l ++ [ExportStdOut tweetsArray; ClosePageManager]).
Proof.
  intros tweetsArray Hexport.
  unfold stop, stopForwardingEvents, stopStreamingTweets, emitCompleteEvent,
    printTweetsToStdOut, emitProgressEvent.
  method_steps. fold tweetsArray. unfold stopped in Hexport.
  simpl in Hexport. rewrite Hexport. reflexivity.
Qed.

Lemma emitted_app (l1 l2 : list Effect) :
  emitted (l1 ++ l2) = emitted l1 ++ emitted l2.
Proof.
  induction l1 as [| [] l1 IH]; simpl; rewrite ?IH; reflexivity.
Qed.

Lemma run_subscribes options world extraction this :
  run options world extraction this
  = match subscribe options world (tweets_pipeline options extraction)
            {| eventForwarder := eventForwarder this;
               tweetStream := {| closed := false |};
               tweets := tweets this;
               forwarding := forwarding this |} with
    | (r, s, l) => (r, s, OpenPageManager :: l)
    end.
Proof.
  unfold run, Method.bind, Method.modify, Method.effect.
  destruct (subscribe _ _ _ _) as [[r s] l]. reflexivity.
Qed.

Lemma run_emitted options world extraction this :
  emitted (Method.effects (run options world extraction this))
  = emitted (Method.effects
      (subscribe options world (tweets_pipeline options extraction)
         {| eventForwarder := eventForwarder this;
            tweetStream := {| closed := false |};
            tweets := tweets this;
            forwarding := forwarding this |})).
Proof.
  rewrite run_subscribes.
  destruct (subscribe _ _ _ _) as [[r s] l]. reflexivity.
Qed.

Lemma onComplete_runs options world this :
  exists e,
    (e = export_event \/ e = export_failed_event)
    /\ Method.completion (onComplete options world this) = Returned tt
    /\ emitted (Method.effects (onComplete options world this))
       = [complete_event; e].
Proof.
  destruct (exportTweets_returns options world
              (tweetMapsToTweets (tweets this) (maxLimit options))
              (stopped this)) as [l [Hexport Hl]].
  apply stop_runs in Hexport.
  assert (He : exists e, (e = export_event \/ e = export_failed_event)
                         /\ emitted l = [e])
    by (destruct Hl as [-> | ->]; eauto).
  destruct He as [e [He Hemitted]]. exists e.
  unfold onComplete, Method.bind. rewrite Hexport.
  unfold Method.completion, Method.effects. simpl.
  rewrite !emitted_app, Hemitted. auto.
Qed.

Lemma onExtractTweets_unbounded options set this :
  maxLimit options = PositiveInfinity ->
  Method.effects (onExtractTweets options set this) = [].
Proof.
  intros Hinf. unfold onExtractTweets. rewrite Hinf. reflexivity.
Qed.

Lemma onError_emitted err this :
  filter is_extraction_event
    (emitted (Method.effects (onError err this))) = [].
Proof.
  unfold onError, emitMessageEvent. destruct (stack err); reflexivity.
Qed.

End ExtractionTaskFacts.

(** ** The task: bounded stop, emissions, stop order, events, export *)

Module TaskProperties.
Import ExtractionTask ExtractionTaskFacts Samples.

(** C1, on the code at limit 5 and three batches of three new
    identifiers each. The claim has the pipeline stop after the second
    batch and export five records. The code does neither: [reduce] holds
    the accumulated set back until the extractor completes, so after the
    second batch the pipeline has delivered nothing and has not
    completed, the third batch is taken in as well, the one set of nine
    fails [takeWhile], nothing reaches [onExtractTweets], and the array
    handed to the exporters is empty. *)
Theorem run_limit5_three_batches :
  let extraction := Rx.of_batches [batch1; batch2; batch3] in
  tweets_pipeline limit5 [Rx.Next batch1; Rx.Next batch2] = []
  /\ batches_pulled limit5 extraction = 3
  /\ tweets_pipeline limit5 extraction = [Rx.Complete]
  /\ tweets (Method.after (run limit5 writable extraction new)) = []
  /\ exported (Method.effects (run limit5 writable extraction new)) = [[]].
Proof. repeat split; reflexivity. Qed.

(** C2, on the code at limit 10 and two batches of three. The claim has
    the accumulated set surfaced after every batch: the set of three,
    then the set of six. The code surfaces nothing after the first
    batch; its only emission is the set of six, once the extractor has
    completed, and the one progress ratio of the run is 6 of 10. *)
Theorem run_two_batches_one_emission :
  let extraction := Rx.of_batches [batch1; batch2] in
  tweets_pipeline limit10 [Rx.Next batch1] = []
  /\ Rx.values (tweets_pipeline limit10 extraction) = [union batch1 batch2]
  /\ filter is_extraction_progress
       (emitted (Method.effects (run limit10 writable extraction new)))
     = [ProgressEvent BOOKMARKED_TWEETS_EXTRACTION
          (Some {| complete := 6; total := Finite 10 |})].
Proof. repeat split; reflexivity. Qed.



(** C7: without a limit, a run raises no extraction-progress event,
    whatever the extractor delivers and however it ends; when the
    extractor completes, the run raises the completion event first, then
    the one event of the export, so that the completion event is the
    only event of the extraction. *)
Theorem run_unbounded_no_ratio options world extraction this :
  maxLimit options = PositiveInfinity ->
  let events :=
    emitted (Method.effects (run options world extraction this)) in
  filter is_extraction_progress events = []
  /\ (Rx.completed extraction = true ->
      filter is_extraction_event events = [complete_event]
      /\ exists e, (e = export_event \/ e = export_failed_event)
                   /\ events = [complete_event; e]).
Proof.
  intros Hinf events. subst events. rewrite run_emitted.
  generalize {| eventForwarder := eventForwarder this;
                tweetStream := {| closed := false |};
                tweets := tweets this;
                forwarding := forwarding this |}.
  clear this. intros this.
  pose proof (tweets_pipeline_completed options extraction) as Hcompleted.
  pose proof (tweets_pipeline_reduced options extraction) as Hshape.
  remember (tweets_pipeline options extraction) as delivered eqn:Hd.
  clear Hd.
  destruct Hshape as [| set | | err]; simpl.
  - split; [reflexivity |]. intros Hc. specialize (Hcompleted Hc). discriminate.
  - unfold Method.bind.
    pose proof (onExtractTweets_unbounded options set this Hinf) as Hquiet.
    destruct (onExtractTweets options set this) as [[[[] | e0] this1] l1] eqn:Hon;
      unfold Method.effects in Hquiet; simpl in Hquiet; subst l1.
    + destruct (onComplete_runs options world this1) as [e [He [_ Hevents]]].
      unfold Method.effects in Hevents.
      destruct (onComplete options world this1) as [[r this2] l2].
      simpl in *. rewrite Hevents.
      split; [destruct He as [-> | ->]; reflexivity |].
      intros _. split; [destruct He as [-> | ->]; reflexivity | eauto].
    + unfold onExtractTweets in Hon. rewrite Hinf in Hon. discriminate.
  - destruct (onComplete_runs options world this) as [e [He [_ Hevents]]].
    rewrite Hevents.
    split; [destruct He as [-> | ->]; reflexivity |].
    intros _. split; [destruct He as [-> | ->]; reflexivity | eauto].
  - split.
    + unfold onError, emitMessageEvent. destruct (stack err); reflexivity.
    + intros Hc. specialize (Hcompleted Hc). discriminate.
Qed.

Lemma run_unbounded_no_ratio_witness :
  let events :=
    emitted (Method.effects
      (run unbounded writable (Rx.of_batches [batch1; batch2]) new)) in
  filter is_extraction_progress events = []
  /\ filter is_extraction_event events = [complete_event].
Proof.
  destruct (run_unbounded_no_ratio unbounded writable
              (Rx.of_batches [batch1; batch2]) new eq_refl)
    as [Hnone Hdone].
  destruct (Hdone eq_refl) as [Honly _].
  split; [exact Hnone | exact Honly].
Defined.



(** C9: for a limit that is a count, [numEvents] is the page manager's
    number of progress events, plus the task's own fixed events (its
    progress tags without the per-tweet extraction tag: completion and
    export), plus the limit when one is configured and nothing
    otherwise. A count is a safe integer that is not negative, and the
    sums are to be safe integers too, which is where doubles add
    without rounding. *)
Theorem numEvents_sum pageManagerEvents options :
  let fixed := (Z.of_nat (List.length PROGRESS_EVENTS) - 1)%Z in
  let forwarded := Z.of_nat (List.length pageManagerEvents) in
  match maxLimit options with
  | Finite limit =>
      (0 <= limit)%Z
      /\ safe_integer limit = true
      /\ safe_integer (fixed + limit) = true
      /\ safe_integer (forwarded + (fixed + limit)) = true
  | PositiveInfinity => safe_integer (forwarded + fixed) = true
  end ->
  numEvents pageManagerEvents options
  = (forwarded + fixed
     + match maxLimit options with
       | Finite limit => limit
       | PositiveInfinity => 0
       end)%Z
  /\ fixed = 2%Z.
Proof.
  intros fixed forwarded Hrange. subst fixed forwarded.
  unfold numEvents. split; [| reflexivity].
  destruct (maxLimit options); lia.
Qed.

Lemma numEvents_sum_witness :
  numEvents ["page:open"; "page:login"; "page:close"] limit5 = 10%Z
  /\ numEvents ["page:open"; "page:login"; "page:close"] unbounded = 5%Z.
Proof.
  destruct (numEvents_sum ["page:open"; "page:login"; "page:close"] limit5)
    as [Hbounded _].
  { simpl. repeat split; (lia || reflexivity). }
  destruct (numEvents_sum ["page:open"; "page:login"; "page:close"] unbounded)
    as [Hunbounded _].
  { reflexivity. }
  split; [exact Hbounded | exact Hunbounded].
Defined.

End TaskProperties.

(** ** The Record Set: union of batches *)

Module RecordSetProperties.
Import ExtractionTask ExtractionTaskFacts Samples.

Lemma union_app (s a b : TweetSet) : union s (a ++ b) = union (union s a) b.
Proof. unfold union, OrderedSet.union. apply fold_left_app. Qed.

(** C5 as stated fails: the set compares whole records, so a tweet seen
    again with another body is kept next to the first one. The
    identifier then stands twice in the union, and the size (2) is not
    the number of distinct identifiers (1). *)
Lemma union_same_id_twice :
  let B1 := [first_seen] in
  let B2 := [seen_again] in
  let merged := union (union OrderedSet.empty B1) B2 in
  In "1" (ids B1) /\ In "1" (ids B2)
  /\ merged = [first_seen; seen_again]
  /\ count_occ string_dec (ids merged) "1" <> 1
  /\ OrderedSet.size merged
     <> List.length (nodup string_dec (ids (B1 ++ B2))).
Proof.
  simpl. repeat split; auto; vm_compute; discriminate.
Qed.

(** C5, amended: union deduplicates by the whole record. For two batches
    that both contain a record [r], the union of both into the empty set
    contains [r] once, and every record keeps the position it had after
    the first batch. Union is idempotent, commutative on membership and
    so on identifiers, and the size is the number of distinct
    records. *)
Theorem union_dedups_records (B1 B2 : list Tweet) (r : Tweet) :
  In r B1 -> In r B2 ->
  let S1 := union OrderedSet.empty B1 in
  let S2 := union S1 B2 in
  OrderedSet.occurrences Tweet_is S2 r = 1
  /\ (forall i x, nth_error S1 i = Some x -> nth_error S2 i = Some x)
  /\ union S2 S2 = S2
  /\ union S2 B1 = S2 /\ union S2 B2 = S2
  /\ (forall (A B : TweetSet) x, In x (union A B) <-> In x (union B A))
  /\ (forall (A B : TweetSet) i,
        In i (ids (union A B)) <-> In i (ids (union B A)))
  /\ OrderedSet.size S2 = List.length (nodup Tweet_eq_dec (B1 ++ B2)).
Proof.
  intros H1 H2 S1 S2.
  assert (Hmem : forall x, In x S2 <-> In x B1 \/ In x B2).
  { intros x. unfold S2, S1, union.
    rewrite !(OrderedSetFacts.union_In _ Tweet_is_eq).
    unfold OrderedSet.empty. simpl. tauto. }
  assert (Hcomm : forall (A B : TweetSet) x,
             In x (union A B) <-> In x (union B A))
    by (intros; apply (OrderedSetFacts.union_comm_In _ Tweet_is_eq)).
  repeat split.
  - apply (OrderedSetFacts.occurrences_NoDup _ Tweet_is_eq).
    + unfold S2, S1, union.
      do 2 apply (OrderedSetFacts.union_NoDup _ Tweet_is_eq). constructor.
    + apply Hmem. now left.
  - intros i x. apply OrderedSetFacts.union_keeps_position.
  - apply (OrderedSetFacts.union_idempotent _ Tweet_is_eq).
  - apply (OrderedSetFacts.union_absorbs _ Tweet_is_eq).
    intros x Hx. apply Hmem. now left.
  - apply (OrderedSetFacts.union_absorbs _ Tweet_is_eq).
    intros x Hx. apply Hmem. now right.
  - apply Hcomm.
  - apply Hcomm.
  - unfold ids. rewrite !in_map_iff.
    intros [x [Hx Hin]]. exists x. split; [assumption | now apply Hcomm].
  - unfold ids. rewrite !in_map_iff.
    intros [x [Hx Hin]]. exists x. split; [assumption | now apply Hcomm].
  - unfold S2, S1. rewrite <- union_app.
    apply (OrderedSetFacts.size_distinct _ Tweet_is_eq).
Qed.

Lemma union_dedups_records_witness :
  In (tweet "3") (batch1 ++ [tweet "4"])
  /\ In (tweet "3") [tweet "3"; tweet "5"]
  /\ OrderedSet.occurrences Tweet_is
       (union (union OrderedSet.empty (batch1 ++ [tweet "4"]))
              [tweet "3"; tweet "5"])
       (tweet "3") = 1.
Proof.
  assert (H1 : In (tweet "3") (batch1 ++ [tweet "4"]))
    by (simpl; tauto).
  assert (H2 : In (tweet "3") [tweet "3"; tweet "5"])
    by (simpl; tauto).
  split; [exact H1 |]. split; [exact H2 |].
  exact (proj1 (union_dedups_records _ _ _ H1 H2)).
Defined.

End RecordSetProperties.

(** ** The login client *)

Module ClientProperties.
Import Client Samples Fixtures.

Ltac client_steps :=
  unfold Method.bind, Method.effect, Method.modify, Method.gets, Method.ret,
    Method.after, Method.effects, Method.completion; simpl.

Section WithPageManager.
Context {PM : Type} `{PageManager.Interface PM}.

(** A client that is not ready still submits the code: the readiness
    check emits [internalError] and the call goes on. *)
Lemma enterConfirmationCode_not_ready (code : string) (this : Client PM) :
  pageManagerReady this = false ->
  count_events internalErrorKey
    (Method.effects (enterConfirmationCode code this)) = 1
  /\ submitted (Method.effects (enterConfirmationCode code this)) = [code].
Proof.
  intros Hready.
  unfold enterConfirmationCode, assertPageManagerReady, await, atPath,
    set_lastCodeAttemptFailed, emit, PageManager.landed.
  client_steps. rewrite Hready. simpl.
  destruct (PageManager.perform _ _) as [[[] | err] landed]; simpl;
    [destruct (PageManager.currentUrlHasPath _ _) |]; split; reflexivity.
Qed.

Lemma enterTwoFactorCode_not_ready (code : string) (this : Client PM) :
  pageManagerReady this = false ->
  count_events internalErrorKey
    (Method.effects (enterTwoFactorCode code this)) = 1
  /\ submitted (Method.effects (enterTwoFactorCode code this)) = [code].
Proof.
  intros Hready.
  unfold enterTwoFactorCode, assertPageManagerReady, await, atPath,
    set_lastCodeAttemptFailed, emit, PageManager.landed.
  client_steps. rewrite Hready. simpl.
  destruct (PageManager.perform _ _) as [[[] | err] landed]; simpl;
    [destruct (PageManager.currentUrlHasPath _ _) |]; split; reflexivity.
Qed.

(** C6, amended: on a ready client in [LoggedOut], a login that lands on
    the bookmarks page ends in [LoggedIn] with one [success] event and
    no [userError] or [actionRequired] event. A login that lands on
    none of the bookmarks, challenge-code and two-factor pages leaves
    the state [LoggedOut], emits no [success] event and marks the last
    attempt failed; it emits one [userError] event when the refresh
    towards the bookmarks page returns, and when that refresh rejects
    it emits no event and rejects with the same error. *)
Theorem logIn_transitions (credentials : PageManager.Credentials)
        (this : Client PM) :
  pageManagerReady this = true ->
  state this = LoggedOut ->
  PageManager.returns (PageManager.logIn credentials) (pageManager this)
  = true ->
  let landed :=
    PageManager.landed (PageManager.logIn credentials) (pageManager this) in
  let result := logIn credentials this in
  (PageManager.currentUrlHasPath landed PATHNAMES.bookmarks = true ->
     Method.completion result = Returned tt
     /\ state (Method.after result) = LoggedIn
     /\ emitted (Method.effects result) = [success]
     /\ count_events successKey (Method.effects result) = 1
     /\ count_events userErrorKey (Method.effects result) = 0
     /\ count_events actionRequiredKey (Method.effects result) = 0)
  /\ (PageManager.currentUrlHasPath landed PATHNAMES.bookmarks = false ->
      PageManager.currentUrlHasPath landed PATHNAMES.challengeCode = false ->
      PageManager.currentUrlHasPath landed PATHNAMES.twoFaCode = false ->
      state (Method.after result) = LoggedOut
      /\ count_events successKey (Method.effects result) = 0
      /\ lastAuthAttemptFailed (Method.after result) = true
      /\ (PageManager.returns PageManager.refreshWithBookmarksRedirect landed
          = true ->
          Method.completion result = Returned tt
          /\ emitted (Method.effects result)
             = [userError "Your credentials were incorrect." []]
          /\ count_events userErrorKey (Method.effects result) = 1)
      /\ (forall err,
            fst (PageManager.perform
                   PageManager.refreshWithBookmarksRedirect landed)
            = Threw err ->
            Method.completion result = Threw err
            /\ emitted (Method.effects result) = [])).
Proof.
  intros Hready Hstate Hreturns landed result. subst landed result.
  unfold PageManager.returns, PageManager.landed in *.
  unfold logIn, handleLoginIssue, await, atPath, set_state,
    set_lastAuthAttemptFailed, emit, PageManager.landed.
  client_steps. rewrite Hready. simpl.
  destruct (PageManager.perform (PageManager.logIn credentials) _)
    as [[[] | err0] landed]; simpl in *; [| discriminate].
  split.
  - intros Hbookmarks. rewrite Hbookmarks. simpl. auto 7.
  - intros Hbookmarks Hchallenge Htwofa.
    rewrite Hbookmarks. simpl. rewrite Hchallenge. simpl.
    rewrite Htwofa. simpl.
    destruct (PageManager.perform PageManager.refreshWithBookmarksRedirect _)
      as [[[] | err1] refreshed]; simpl.
    + repeat split; auto; discriminate.
    + repeat split; auto; try discriminate; congruence.
Qed.

(** C10: the two code-entry calls drive the session and set the
    last-code-attempt flag, and change nothing else of the client: the
    state is what it was, also when the code is accepted and the
    session leaves the code page, and also when the call rejects. The
    flag is set exactly when the call returned with the session still
    on the code page. *)
Theorem enter_code_keeps_state (code : string) (this : Client PM) :
  let confirmed := Method.after (enterConfirmationCode code this) in
  let two_factor := Method.after (enterTwoFactorCode code this) in
  (state confirmed = state this
   /\ pageManagerReady confirmed = pageManagerReady this
   /\ lastAuthAttemptFailed confirmed = lastAuthAttemptFailed this
   /\ pageManager confirmed
      = PageManager.landed (PageManager.enterConfirmationCode code)
                           (pageManager this)
   /\ lastCodeAttemptFailed confirmed
      = PageManager.returns (PageManager.enterConfirmationCode code)
                            (pageManager this)
        && PageManager.currentUrlHasPath (pageManager confirmed)
                                         PATHNAMES.challengeCode)
  /\ (state two_factor = state this
      /\ pageManagerReady two_factor = pageManagerReady this
      /\ lastAuthAttemptFailed two_factor = lastAuthAttemptFailed this
      /\ pageManager two_factor
         = PageManager.landed (PageManager.enterTwoFactorCode code)
                              (pageManager this)
      /\ lastCodeAttemptFailed two_factor
         = PageManager.returns (PageManager.enterTwoFactorCode code)
                               (pageManager this)
           && PageManager.currentUrlHasPath (pageManager two_factor)
                                            PATHNAMES.twoFaCode)
  /\ (state this <> LoggedIn ->
      state confirmed <> LoggedIn /\ state two_factor <> LoggedIn).
Proof.
  intros confirmed two_factor. subst confirmed two_factor.
  unfold enterConfirmationCode, enterTwoFactorCode, assertPageManagerReady,
    await, atPath, set_lastCodeAttemptFailed, emit,
    PageManager.returns, PageManager.landed.
  client_steps.
  destruct (pageManagerReady this) eqn:Hready; simpl;
    destruct (PageManager.perform (PageManager.enterConfirmationCode code) _)
      as [[[] | err1] landed1]; simpl;
    destruct (PageManager.perform (PageManager.enterTwoFactorCode code) _)
      as [[[] | err2] landed2]; simpl;
    try destruct (PageManager.currentUrlHasPath landed1
                    PATHNAMES.challengeCode) eqn:Hc;
    try destruct (PageManager.currentUrlHasPath landed2
                    PATHNAMES.twoFaCode) eqn:Ht;
    simpl; rewrite ?Hc, ?Ht; repeat split; auto.
Qed.

End WithPageManager.

(** C4, on the code at a client that was never initialized and the code
    "000000". The claim has the call rejected without a submission. The
    code emits the one [internalError] event and then submits the code
    to the session all the same, in both calls. *)
Theorem enter_code_on_fresh_client :
  Method.effects (enterConfirmationCode "000000" fresh_client)
  = [ Emit (internalError
        (String.append
           "Page manager had not been initialized correctly."
           "The page manager is necessary to sign in on your behalf to Twitter and begin the process of fetching bookmarks.")
        []);
      Perform (PageManager.enterConfirmationCode "000000") ]
  /\ submitted (Method.effects (enterConfirmationCode "000000" fresh_client))
     = ["000000"]
  /\ submitted (Method.effects (enterTwoFactorCode "000000" fresh_client))
     = ["000000"].
Proof. repeat split; reflexivity. Qed.

(** C6 as stated fails: the [userError] event comes after the refresh
    towards the bookmarks page, and nothing catches a refresh that
    rejects. On a session that drops after the login was submitted, a
    login that lands on none of the three pages emits no [userError]
    event and rejects. *)
Lemma logIn_refresh_rejected :
  let landed :=
    PageManager.landed (PageManager.logIn bad_credentials)
                       (pageManager dropped_client) in
  let result := logIn bad_credentials dropped_client in
  pageManagerReady dropped_client = true
  /\ state dropped_client = LoggedOut
  /\ PageManager.returns (PageManager.logIn bad_credentials)
                         (pageManager dropped_client) = true
  /\ PageManager.currentUrlHasPath landed PATHNAMES.bookmarks = false
  /\ PageManager.currentUrlHasPath landed PATHNAMES.challengeCode = false
  /\ PageManager.currentUrlHasPath landed PATHNAMES.twoFaCode = false
  /\ count_events userErrorKey (Method.effects result) = 0
  /\ count_events userErrorKey (Method.effects result) <> 1
  /\ Method.completion result = Threw connection_lost.
Proof. repeat split; try reflexivity. discriminate. Qed.

Lemma logIn_transitions_witness :
  state (Method.after (logIn good_credentials ready_client)) = LoggedIn
  /\ emitted (Method.effects (logIn good_credentials ready_client))
     = [success]
  /\ state (Method.after (logIn bad_credentials ready_client)) = LoggedOut
  /\ emitted (Method.effects (logIn bad_credentials ready_client))
     = [userError "Your credentials were incorrect." []]
  /\ emitted (Method.effects (logIn bad_credentials dropped_client)) = [].
Proof.
  pose proof (logIn_transitions good_credentials ready_client
                eq_refl eq_refl) as Hgood.
  pose proof (logIn_transitions bad_credentials ready_client
                eq_refl eq_refl) as Hbad.
  pose proof (logIn_transitions bad_credentials dropped_client
                eq_refl eq_refl) as Hdropped.
  destruct (Hgood eq_refl) as [Hlands _].
  destruct (Hlands eq_refl) as [_ [Hin [Hsuccess _]]].
  destruct (Hbad eq_refl) as [_ Hnowhere].
  destruct (Hnowhere eq_refl eq_refl eq_refl) as [Hout [_ [_ [Hreturns _]]]].
  destruct (Hreturns eq_refl) as [_ [Herror _]].
  destruct (Hdropped eq_refl) as [_ Hlost].
  destruct (Hlost eq_refl eq_refl eq_refl) as [_ [_ [_ [_ Hrejects]]]].
  destruct (Hrejects connection_lost eq_refl) as [_ Hnone].
  repeat split; assumption.
Defined.

Lemma enter_code_keeps_state_witness :
  state (Method.after (enterTwoFactorCode "123456" waiting_client))
  = Needs2FACode
  /\ state (Method.after (enterTwoFactorCode "123456" waiting_client))
     <> LoggedIn
  /\ PageManager.currentUrlHasPath
       (pageManager (Method.after (enterTwoFactorCode "123456" waiting_client)))
       PATHNAMES.bookmarks = true.
Proof.
  destruct (enter_code_keeps_state "123456" waiting_client)
    as [_ [[Hstate _] Hnot]].
  assert (Hwaiting : state waiting_client <> LoggedIn) by discriminate.
  destruct (Hnot Hwaiting) as [_ Hnot2].
  split; [exact Hstate |]. split; [exact Hnot2 | reflexivity].
Defined.

End ClientProperties.

(** ** The login client: every call, and calls in a row *)

Module ClientCalls.
Import Client Session Samples Fixtures.

Ltac client_run :=
  unfold logIn, handleLoginIssue, enterConfirmationCode, enterTwoFactorCode,
    logOut, tearDown, assertPageManagerReady, await, atPath, set_state,
    set_lastAuthAttemptFailed, set_lastCodeAttemptFailed, emit, loggedIn,
    PageManager.returns, PageManager.landed,
    Method.bind, Method.effect, Method.modify, Method.gets, Method.ret,
    Method.after, Method.effects, Method.completion in *;
  simpl in *.

Section WithPageManager.
Context {PM : Type} `{PageManager.Interface PM}.

(** X1: [logIn] on a client that is not ready emits the one
    [internalError] event and does nothing else: no call reaches the
    page manager and no field of the client changes. *)
Theorem logIn_not_ready (credentials : PageManager.Credentials)
        (this : Client PM) :
  pageManagerReady this = false ->
  logIn credentials this
  = (Returned tt, this,
     [Emit (internalError "The browser hasn't been initialized yet." [])]).
Proof.
  intros Hready. client_run. rewrite Hready. reflexivity.
Qed.

(** X2: when a login of a ready client does not land on the bookmarks
    page, a challenge-code page makes the state [NeedsConfirmationCode]
    and a two-factor page makes it [Needs2FACode], each with one
    [actionRequired] event and no other event; the challenge-code page
    is looked for first. The attempt is not marked failed and the login
    is the only call made to the page manager. *)
Theorem logIn_asks_for_code (credentials : PageManager.Credentials)
        (this : Client PM) :
  pageManagerReady this = true ->
  PageManager.returns (PageManager.logIn credentials) (pageManager this)
  = true ->
  let landed :=
    PageManager.landed (PageManager.logIn credentials) (pageManager this) in
  let result := logIn credentials this in
  PageManager.currentUrlHasPath landed PATHNAMES.bookmarks = false ->
  (PageManager.currentUrlHasPath landed PATHNAMES.challengeCode = true ->
     state (Method.after result) = NeedsConfirmationCode
     /\ emitted (Method.effects result)
        = [actionRequired "Your confirmation code is necessary to proceed."]
     /\ lastAuthAttemptFailed (Method.after result) = false
     /\ performed (Method.effects result) = [PageManager.logIn credentials])
  /\ (PageManager.currentUrlHasPath landed PATHNAMES.challengeCode = false ->
      PageManager.currentUrlHasPath landed PATHNAMES.twoFaCode = true ->
      state (Method.after result) = Needs2FACode
      /\ emitted (Method.effects result)
         = [actionRequired
              "Your 2FA code is necessary to proceed. Please check your device."]
      /\ lastAuthAttemptFailed (Method.after result) = false
      /\ performed (Method.effects result) = [PageManager.logIn credentials]).
Proof.
  intros Hready Hreturns landed result Hbookmarks. subst landed result.
  client_run. rewrite Hready. simpl.
  destruct (PageManager.perform (PageManager.logIn credentials) _)
    as [[[] | err] landed]; simpl in *; [| discriminate].
  rewrite Hbookmarks. simpl. split.
  - intros Hchallenge. rewrite Hchallenge. simpl. auto.
  - intros Hchallenge Htwofa. rewrite Hchallenge. simpl.
    rewrite Htwofa. simpl. auto.
Qed.

(** X3: a call of [logIn] that returns has emitted exactly one event,
    whatever the client and wherever the login lands; a call that
    rejects, because the page manager's login or refresh rejected, has
    emitted none. *)
Theorem logIn_emits_once (credentials : PageManager.Credentials)
        (this : Client PM) :
  let result := logIn credentials this in
  (Method.completion result = Returned tt ->
   List.length (emitted (Method.effects result)) = 1)
  /\ (forall err, Method.completion result = Threw err ->
      emitted (Method.effects result) = []
      /\ pageManagerReady this = true
      /\ (fst (PageManager.perform (PageManager.logIn credentials)
                                   (pageManager this)) = Threw err
          \/ fst (PageManager.perform
                    PageManager.refreshWithBookmarksRedirect
                    (PageManager.landed (PageManager.logIn credentials)
                                        (pageManager this))) = Threw err)).
Proof.
  intros result. subst result. client_run.
  destruct (pageManagerReady this); simpl;
    [| split; [reflexivity | discriminate]].
  destruct (PageManager.perform (PageManager.logIn credentials) _)
    as [[[] | err0] landed]; simpl;
    [| split; [discriminate | intros err Herr; auto]].
  destruct (PageManager.currentUrlHasPath _ PATHNAMES.bookmarks); simpl;
    [split; [reflexivity | discriminate] |].
  destruct (PageManager.currentUrlHasPath _ PATHNAMES.challengeCode); simpl;
    [split; [reflexivity | discriminate] |].
  destruct (PageManager.currentUrlHasPath _ PATHNAMES.twoFaCode); simpl;
    [split; [reflexivity | discriminate] |].
  destruct (PageManager.perform PageManager.refreshWithBookmarksRedirect _)
    as [[[] | err1] refreshed]; simpl;
    split; try reflexivity; try discriminate; intros err Herr; auto.
Qed.

(** X4: after a login of a ready client that the page manager let
    return, the last attempt is marked failed exactly when the login
    landed on none of the bookmarks, challenge-code and two-factor
    pages, whatever the mark was before. A failed attempt leaves the
    state as it was, from any state, and is followed by the refresh
    towards the bookmarks page. The login never touches the
    last-code-attempt mark. *)
Theorem logIn_marks_failure (credentials : PageManager.Credentials)
        (this : Client PM) :
  pageManagerReady this = true ->
  PageManager.returns (PageManager.logIn credentials) (pageManager this)
  = true ->
  let landed :=
    PageManager.landed (PageManager.logIn credentials) (pageManager this) in
  let result := logIn credentials this in
  let nowhere :=
    negb (PageManager.currentUrlHasPath landed PATHNAMES.bookmarks)
    && negb (PageManager.currentUrlHasPath landed PATHNAMES.challengeCode)
    && negb (PageManager.currentUrlHasPath landed PATHNAMES.twoFaCode) in
  lastAuthAttemptFailed (Method.after result) = nowhere
  /\ lastCodeAttemptFailed (Method.after result) = lastCodeAttemptFailed this
  /\ (nowhere = true ->
      state (Method.after result) = state this
      /\ performed (Method.effects result)
         = [PageManager.logIn credentials;
            PageManager.refreshWithBookmarksRedirect]).
Proof.
  intros Hready Hreturns landed result nowhere. subst landed result nowhere.
  client_run. rewrite Hready. simpl.
  destruct (PageManager.perform (PageManager.logIn credentials) _)
    as [[[] | err] landed]; simpl in *; [| discriminate].
  destruct (PageManager.currentUrlHasPath _ PATHNAMES.bookmarks); simpl;
    [repeat split; discriminate |].
  destruct (PageManager.currentUrlHasPath _ PATHNAMES.challengeCode); simpl;
    [repeat split; discriminate |].
  destruct (PageManager.currentUrlHasPath _ PATHNAMES.twoFaCode); simpl;
    [repeat split; discriminate |].
  destruct (PageManager.perform PageManager.refreshWithBookmarksRedirect _)
    as [[[] | err1] refreshed]; simpl; repeat split.
Qed.

(** X5: on a ready client, each of the two code-entry calls submits the
    code once and asks nothing else of the page manager. When the
    submission returns with the session still on the code page, the
    call emits the one [userError] event and sets the
    last-code-attempt mark; when it returns with the session off that
    page, the call emits no event at all, not even [success], and the
    mark is cleared. When the submission rejects, the call rejects
    with the same error, emits nothing and leaves the mark cleared. *)
Theorem enter_code_answer (code : string) (this : Client PM) :
  pageManagerReady this = true ->
  let confirmation := enterConfirmationCode code this in
  let two_factor := enterTwoFactorCode code this in
  let challenge := PageManager.enterConfirmationCode code in
  let second := PageManager.enterTwoFactorCode code in
  let challenged :=
    PageManager.currentUrlHasPath
      (PageManager.landed challenge (pageManager this))
      PATHNAMES.challengeCode in
  let asked_again :=
    PageManager.currentUrlHasPath
      (PageManager.landed second (pageManager this))
      PATHNAMES.twoFaCode in
  (PageManager.returns challenge (pageManager this) = true ->
     Method.completion confirmation = Returned tt
     /\ Method.effects confirmation
        = Perform challenge
            :: (if challenged
                then [Emit (userError "Your challenge code was incorrect." [])]
                else [])
     /\ lastCodeAttemptFailed (Method.after confirmation) = challenged)
  /\ (forall err,
        fst (PageManager.perform challenge (pageManager this)) = Threw err ->
        Method.completion confirmation = Threw err
        /\ Method.effects confirmation = [Perform challenge]
        /\ lastCodeAttemptFailed (Method.after confirmation) = false)
  /\ (PageManager.returns second (pageManager this) = true ->
      Method.completion two_factor = Returned tt
      /\ Method.effects two_factor
         = Perform second
             :: (if asked_again
                 then [Emit (userError "Your 2FA code was incorrect." [])]
                 else [])
      /\ lastCodeAttemptFailed (Method.after two_factor) = asked_again)
  /\ (forall err,
        fst (PageManager.perform second (pageManager this)) = Threw err ->
        Method.completion two_factor = Threw err
        /\ Method.effects two_factor = [Perform second]
        /\ lastCodeAttemptFailed (Method.after two_factor) = false).
Proof.
  intros Hready confirmation two_factor challenge second challenged
    asked_again.
  subst confirmation two_factor challenge second challenged asked_again.
  client_run. rewrite Hready. simpl.
  destruct (PageManager.perform (PageManager.enterConfirmationCode code) _)
    as [[[] | err1] landed1]; simpl;
    destruct (PageManager.perform (PageManager.enterTwoFactorCode code) _)
      as [[[] | err2] landed2]; simpl;
    try destruct (PageManager.currentUrlHasPath landed1
                    PATHNAMES.challengeCode);
    try destruct (PageManager.currentUrlHasPath landed2 PATHNAMES.twoFaCode);
    simpl; repeat split; auto; try discriminate; congruence.
Qed.

(** X6: [logOut] on a client that is not ready does nothing at all. On a
    ready client it asks the page manager to log out and nothing else.
    When that returns on the logged-out page the state becomes
    [LoggedOut] and [success] is emitted exactly when the caller asked
    for the event; when it returns anywhere else the state stays, no
    event is emitted and a warning is written; when it rejects,
    [logOut] rejects with the same error, the state stays and no event
    is emitted. *)
Theorem logOut_outcome (emitEvent : bool) (this : Client PM) :
  let result := logOut emitEvent this in
  let landed := PageManager.landed PageManager.logOut (pageManager this) in
  (pageManagerReady this = false -> result = (Returned tt, this, []))
  /\ (pageManagerReady this = true ->
      performed (Method.effects result) = [PageManager.logOut]
      /\ (PageManager.returns PageManager.logOut (pageManager this) = true ->
          PageManager.currentUrlHasPath landed PATHNAMES.loggedOut = true ->
          state (Method.after result) = LoggedOut
          /\ emitted (Method.effects result)
             = (if emitEvent then [success] else [])
          /\ warned (Method.effects result) = [])
      /\ (PageManager.returns PageManager.logOut (pageManager this) = true ->
          PageManager.currentUrlHasPath landed PATHNAMES.loggedOut = false ->
          state (Method.after result) = state this
          /\ emitted (Method.effects result) = []
          /\ warned (Method.effects result) = ["Not at logged out page!"])
      /\ (forall err,
            fst (PageManager.perform PageManager.logOut (pageManager this))
            = Threw err ->
            Method.completion result = Threw err
            /\ state (Method.after result) = state this
            /\ emitted (Method.effects result) = []
            /\ warned (Method.effects result) = [])).
Proof.
  intros result landed. subst result landed. client_run. split.
  - intros Hready. rewrite Hready. reflexivity.
  - intros Hready. rewrite Hready. simpl.
    destruct (PageManager.perform PageManager.logOut _)
      as [[[] | err0] landed]; simpl.
    + destruct (PageManager.currentUrlHasPath _ PATHNAMES.loggedOut);
        destruct emitEvent; simpl;
        repeat split; auto; discriminate.
    + repeat split; auto; try discriminate; congruence.
Qed.


End WithPageManager.

Lemma logIn_not_ready_witness :
  logIn good_credentials fresh_client
  = (Returned tt, fresh_client,
     [Emit (internalError "The browser hasn't been initialized yet." [])]).
Proof. apply (logIn_not_ready good_credentials fresh_client). reflexivity. Defined.

Lemma logIn_asks_for_code_witness :
  state (Method.after (logIn two_factor_credentials ready_client))
  = Needs2FACode
  /\ List.length
       (emitted (Method.effects (logIn two_factor_credentials ready_client)))
     = 1.
Proof.
  pose proof (logIn_asks_for_code two_factor_credentials ready_client
                eq_refl) as Hreturned.
  pose proof (Hreturned eq_refl) as Hlanded.
  destruct (Hlanded eq_refl) as [_ Htwofa].
  destruct (Htwofa eq_refl eq_refl) as [Hstate [Hevents _]].
  split; [exact Hstate | now rewrite Hevents].
Defined.

Lemma logIn_emits_once_witness :
  List.length (emitted (Method.effects (logIn bad_credentials ready_client)))
  = 1
  /\ emitted (Method.effects (logIn bad_credentials dropped_client)) = [].
Proof.
  destruct (logIn_emits_once bad_credentials ready_client) as [Hreturned _].
  destruct (logIn_emits_once bad_credentials dropped_client)
    as [_ Hrejected].
  split; [exact (Hreturned eq_refl) |].
  exact (proj1 (Hrejected connection_lost eq_refl)).
Defined.

Lemma logIn_marks_failure_witness :
  lastAuthAttemptFailed (Method.after (logIn bad_credentials logged_in_client))
  = true
  /\ state (Method.after (logIn bad_credentials logged_in_client)) = LoggedIn.
Proof.
  pose proof (logIn_marks_failure bad_credentials logged_in_client eq_refl)
    as Hreturned.
  destruct (Hreturned eq_refl) as [Hmark [_ Hfailed]].
  destruct (Hfailed eq_refl) as [Hstate _].
  split; [exact Hmark | exact Hstate].
Defined.

Lemma enter_code_answer_witness :
  Method.effects (enterConfirmationCode "123456" challenged_client)
  = [Perform (PageManager.enterConfirmationCode "123456")]
  /\ Method.effects (enterTwoFactorCode "999999" waiting_client)
     = [Perform (PageManager.enterTwoFactorCode "999999");
        Emit (userError "Your 2FA code was incorrect." [])]
  /\ Method.completion (enterTwoFactorCode "123456" dropped_client)
     = Threw connection_lost.
Proof.
  destruct (enter_code_answer "123456" challenged_client eq_refl)
    as [Haccepted _].
  destruct (enter_code_answer "999999" waiting_client eq_refl)
    as [_ [_ [Hrejected _]]].
  destruct (enter_code_answer "123456" dropped_client eq_refl)
    as [_ [_ [_ Hlost]]].
  split; [exact (proj1 (proj2 (Haccepted eq_refl))) |].
  split; [exact (proj1 (proj2 (Hrejected eq_refl))) |].
  exact (proj1 (Hlost connection_lost eq_refl)).
Defined.

Lemma logOut_outcome_witness :
  logOut true fresh_client = (Returned tt, fresh_client, [])
  /\ state (Method.after (logOut false logged_in_client)) = LoggedOut
  /\ emitted (Method.effects (logOut false logged_in_client)) = []
  /\ Method.completion (logOut true dropped_signed_in)
     = Threw connection_lost.
Proof.
  destruct (logOut_outcome true fresh_client) as [Hfresh _].
  destruct (logOut_outcome false logged_in_client) as [_ Hready].
  destruct (logOut_outcome true dropped_signed_in) as [_ Hdropped].
  destruct (Hready eq_refl) as [_ [Hout _]].
  destruct (Hout eq_refl eq_refl) as [Hstate [Hevents _]].
  destruct (Hdropped eq_refl) as [_ [_ [_ Hlost]]].
  split; [exact (Hfresh eq_refl) |]. split; [exact Hstate |].
  split; [exact Hevents |].
  exact (proj1 (Hlost connection_lost eq_refl)).
Defined.


End ClientCalls.

(** ** The login client: [init], and what every session keeps *)

Module ClientSessions.
Import Client Session Samples Fixtures.

Ltac init_run :=
  unfold ClientInit.init, ClientInit.await_init, ClientInit.with_pageManager,
    Method.bind, Method.effect, Method.modify, Method.gets, Method.ret,
    Method.after, Method.effects, Method.completion;
  simpl.

Section WithPageManager.
Context {PM : Type} `{PageManager.Interface PM} `{Startup.Interface PM}.

Lemma lookup_known (browserName : string) :
  NAME_TO_BROWSER.lookup browserName = None
  <-> existsb (String.eqb browserName) ["chromium"; "firefox"; "webkit"]
      || existsb (String.eqb browserName) NAME_TO_BROWSER.Object_prototype
      = false.
Proof.
  unfold NAME_TO_BROWSER.lookup.
  cbn [existsb].
  destruct (String.eqb browserName "chromium"); [split; discriminate |].
  destruct (String.eqb browserName "firefox"); [split; discriminate |].
  destruct (String.eqb browserName "webkit"); [split; discriminate |].
  cbn [orb].
  destruct (existsb (String.eqb browserName) NAME_TO_BROWSER.Object_prototype);
    split; try discriminate; reflexivity.
Qed.

(** X8: [init] turns a name away exactly when it is neither one of the
    three browser names nor a member that the table inherits from
    [Object.prototype]. A name turned away gets the one [userError]
    event, nothing reaches the page manager and the client is left as
    it was; any other name gets no [userError] event. *)
Theorem init_turns_away (browserName : string) (this : Client PM) :
  let known :=
    existsb (String.eqb browserName) ["chromium"; "firefox"; "webkit"]
    || existsb (String.eqb browserName) NAME_TO_BROWSER.Object_prototype in
  (known = false ->
     ClientInit.init browserName this
     = (Returned tt, this,
        [ClientInit.Emit (userError ClientInit.unsupported_browser [])]))
  /\ (known = true ->
      forall e,
        In e (ClientInit.emitted
                (Method.effects (ClientInit.init browserName this))) ->
        e = success).
Proof.
  intros known. subst known. split.
  - intros Hknown. apply lookup_known in Hknown.
    unfold ClientInit.init. rewrite Hknown. reflexivity.
  - intros Hknown.
    destruct (NAME_TO_BROWSER.lookup browserName) as [value |] eqn:Hlookup.
    + init_run. rewrite Hlookup. init_run.
      destruct (Startup.init _) as [[[] | err] pm]; simpl;
        intros e He; simpl in He; intuition.
    + apply lookup_known in Hlookup. congruence.
Qed.

(** X9: on a client that is not ready, [init] makes it ready exactly
    when it emits [success], and that is exactly when the name is found
    in the table and the start of the browser returns; [init] then
    returns. When the start of the browser throws, [init] throws the
    same error, emits nothing and leaves the client not ready; and
    [init] throws in no other case. *)
Theorem init_ready_iff_success (browserName : string) (this : Client PM) :
  pageManagerReady this = false ->
  let result := ClientInit.init browserName this in
  let started :=
    match NAME_TO_BROWSER.lookup browserName with
    | Some value =>
        match fst (Startup.init
                     (Startup.setBrowserType value (pageManager this))) with
        | Returned _ => true
        | Threw _ => false
        end
    | None => false
    end in
  pageManagerReady (Method.after result) = started
  /\ (ClientInit.emitted (Method.effects result) = [success]
      <-> started = true)
  /\ (started = true -> Method.completion result = Returned tt)
  /\ (forall value err,
        NAME_TO_BROWSER.lookup browserName = Some value ->
        fst (Startup.init (Startup.setBrowserType value (pageManager this)))
        = Threw err ->
        Method.completion result = Threw err
        /\ ClientInit.emitted (Method.effects result) = []
        /\ pageManagerReady (Method.after result) = false)
  /\ (forall err, Method.completion result = Threw err ->
      ClientInit.emitted (Method.effects result) = []
      /\ exists value,
           NAME_TO_BROWSER.lookup browserName = Some value
           /\ fst (Startup.init
                     (Startup.setBrowserType value (pageManager this)))
              = Threw err).
Proof.
  intros Hready result started. subst result started.
  init_run.
  destruct (NAME_TO_BROWSER.lookup browserName) as [value |]; init_run.
  - destruct (Startup.init _) as [[[] | err] pm] eqn:Hstart; simpl.
    + split; [reflexivity |]. split; [split; auto |].
      split; [auto |]. split.
      * intros value' err' Hvalue Hthrown. injection Hvalue as <-.
        rewrite Hstart in Hthrown. discriminate.
      * intros err' Herr. discriminate.
    + split; [assumption |]. split; [split; discriminate |].
      split; [discriminate |]. split.
      * intros value' err' Hvalue Hthrown. injection Hvalue as <-.
        rewrite Hstart in Hthrown. simpl in Hthrown.
        injection Hthrown as <-. auto.
      * intros err' Herr. injection Herr as <-. split; [reflexivity |].
        exists value. split; [reflexivity | now rewrite Hstart].
  - split; [assumption |]. split; [split; discriminate |].
    split; [discriminate |]. split; discriminate.
Qed.

Ltac break_call :=
  match goal with
  | |- context [PageManager.perform ?call ?pm] =>
      destruct (PageManager.perform call pm) as [[[] | ?] ?]; simpl
  | |- context [PageManager.currentUrlHasPath ?pm ?path] =>
      destruct (PageManager.currentUrlHasPath pm path); simpl
  end.

Lemma step_keeps (this : Client PM) (op : Operation) :
  kept this -> kept (step this op).
Proof.
  intros [Hactive Hgate]. unfold kept.
  destruct op as [name | credentials | code | code | emitEvent |]; simpl.
  - init_run. destruct (NAME_TO_BROWSER.lookup name); init_run;
      [| intuition congruence].
    destruct (Startup.init _) as [[[] | err] pm]; simpl; intuition congruence.
  - ClientCalls.client_run.
    destruct (pageManagerReady this) eqn:Hready; simpl;
      repeat break_call; intuition congruence.
  - ClientCalls.client_run.
    destruct (pageManagerReady this) eqn:Hready; simpl;
      repeat break_call; intuition congruence.
  - ClientCalls.client_run.
    destruct (pageManagerReady this) eqn:Hready; simpl;
      repeat break_call; intuition congruence.
  - ClientCalls.client_run.
    destruct (pageManagerReady this) eqn:Hready; simpl;
      repeat break_call; destruct emitEvent; simpl; intuition congruence.
  - ClientCalls.client_run.
    destruct (State_eqb (state this) LoggedIn); simpl;
      ClientCalls.client_run;
      destruct (pageManagerReady this) eqn:Hready; simpl;
      repeat break_call; intuition congruence.
Qed.

Lemma steps_keep (ops : list Operation) (this : Client PM) :
  kept this -> kept (steps ops this).
Proof.
  unfold steps. revert this.
  induction ops as [| op ops IH]; intros this Hkept; simpl;
    [assumption | apply IH, step_keeps, Hkept].
Qed.

(** X10: whatever calls are made on a new client, in whatever order and
    with whatever answers of the page manager, the state is never
    [Inactive], a client that is not in [LoggedOut] is ready, and
    [loggedIn] is the opposite of [loggedOut]. *)
Theorem session_keeps (ops : list Operation) (pm : PM) :
  let this := steps ops (Client.new pm) in
  state this <> Inactive
  /\ (state this <> LoggedOut -> pageManagerReady this = true)
  /\ loggedIn this = negb (loggedOut this).
Proof.
  intros this.
  assert (Hkept : kept this).
  { apply steps_keep. split; [discriminate | now left]. }
  destruct Hkept as [Hactive Hgate].
  split; [assumption |]. split; [tauto |].
  unfold loggedIn, loggedOut, needsConfirmationCode, needs2FACode.
  destruct (state this); try reflexivity. contradiction.
Qed.

Lemma step_stays_ready (this : Client PM) (op : Operation) :
  pageManagerReady this = true -> pageManagerReady (step this op) = true.
Proof.
  intros Hready.
  destruct op as [name | credentials | code | code | emitEvent |]; simpl.
  - init_run. destruct (NAME_TO_BROWSER.lookup name); init_run;
      [| assumption].
    destruct (Startup.init _) as [[[] | err] pm]; simpl; auto.
  - ClientCalls.client_run. rewrite Hready. simpl.
    repeat break_call; auto.
  - ClientCalls.client_run. rewrite Hready. simpl.
    repeat break_call; auto.
  - ClientCalls.client_run. rewrite Hready. simpl.
    repeat break_call; auto.
  - ClientCalls.client_run. rewrite Hready. simpl.
    repeat break_call; destruct emitEvent; simpl; auto.
  - ClientCalls.client_run.
    destruct (State_eqb (state this) LoggedIn); simpl;
      ClientCalls.client_run; rewrite ?Hready; simpl;
      repeat break_call; auto.
Qed.

(** X11: no call ever takes readiness back: a ready client is ready
    after any calls, [tearDown] among them. So a [logIn] after
    [tearDown] is not turned away with [internalError]; it submits the
    credentials to the page manager that was torn down. *)
Theorem ready_for_good (ops : list Operation) (this : Client PM)
        (credentials : PageManager.Credentials) :
  pageManagerReady this = true ->
  pageManagerReady (steps ops this) = true
  /\ let later := logIn credentials (steps (ops ++ [TearDown]) this) in
     count_events internalErrorKey (Method.effects later) = 0
     /\ exists rest,
          performed (Method.effects later)
          = PageManager.logIn credentials :: rest.
Proof.
  intros Hready.
  assert (Hsteps : forall ops' c,
             pageManagerReady c = true ->
             pageManagerReady (steps ops' c) = true).
  { unfold steps. induction ops' as [| op ops' IH]; intros c Hc; simpl;
      [assumption | apply IH, step_stays_ready, Hc]. }
  split; [now apply Hsteps |].
  intros later. subst later.
  pose proof (Hsteps (ops ++ [TearDown]) this Hready) as Hlater.
  remember (steps (ops ++ [TearDown]) this) as torn eqn:Htorn. clear Htorn.
  ClientCalls.client_run. rewrite Hlater. simpl.
  repeat break_call; split; (reflexivity || eauto).
Qed.

End WithPageManager.

Lemma init_turns_away_witness :
  ClientInit.init "chrome"
    (Client.new unpacked)
  = (Returned tt, Client.new unpacked,
     [ClientInit.Emit (userError ClientInit.unsupported_browser [])])
  /\ ~ In (userError ClientInit.unsupported_browser [])
          (ClientInit.emitted
             (Method.effects (ClientInit.init "toString" (Client.new unpacked)))).
Proof.
  destruct (init_turns_away "chrome" (Client.new unpacked)) as [Haway _].
  destruct (init_turns_away "toString" (Client.new unpacked)) as [_ Hkept].
  split; [exact (Haway eq_refl) |].
  intros Hin. apply (Hkept eq_refl) in Hin. discriminate.
Defined.

Lemma init_ready_iff_success_witness :
  pageManagerReady (Method.after (ClientInit.init "firefox" (Client.new unpacked)))
  = true
  /\ pageManagerReady
       (Method.after (ClientInit.init "toString" (Client.new unpacked)))
     = false.
Proof.
  destruct (init_ready_iff_success "firefox" (Client.new unpacked) eq_refl)
    as [Hfirefox _].
  destruct (init_ready_iff_success "toString" (Client.new unpacked) eq_refl)
    as [Hinherited _].
  split; [exact Hfirefox | exact Hinherited].
Defined.

Lemma session_keeps_witness :
  let this :=
    steps [Init "webkit"; LogIn two_factor_credentials;
           EnterTwoFactorCode "123456"; TearDown]
          (Client.new unpacked) in
  state this = Needs2FACode /\ pageManagerReady this = true.
Proof.
  destruct (session_keeps
              [Init "webkit"; LogIn two_factor_credentials;
               EnterTwoFactorCode "123456"; TearDown] unpacked)
    as [_ [Hready _]].
  split; [reflexivity |]. apply Hready. discriminate.
Defined.

Lemma ready_for_good_witness :
  pageManagerReady (steps [LogOut true; TearDown] signed_in) = true.
Proof.
  exact (proj1 (ready_for_good [LogOut true; TearDown] signed_in
                  good_credentials eq_refl)).
Defined.

End ClientSessions.

(** ** The extraction task: every run *)

Module RunFacts.
Import ExtractionTask ExtractionTaskFacts Run.

Lemma map_toObject (l : list Tweet) : map toObject l = l.
Proof. unfold toObject. apply map_id. Qed.

(** *** How the extractor ends decides what the pipeline delivers *)

Lemma ending_cases {A} (o : Rx.Observable A) :
  (Rx.terminated o = false /\ Rx.completed o = false /\ failure o = None)
  \/ (Rx.terminated o = true /\ Rx.completed o = true /\ failure o = None)
  \/ (exists e, Rx.terminated o = true /\ Rx.completed o = false
                /\ failure o = Some e).
Proof.
  induction o as [| [x | | e] rest IH]; simpl; eauto 6.
Qed.

Lemma reduce_from_failure {A} (f : A -> A -> A) (o : Rx.Observable A) e :
  failure o = Some e -> forall acc, Rx.reduce_from f acc o = [Rx.Error e].
Proof.
  induction o as [| [x | | e'] rest IH]; simpl; intros Hf acc;
    try discriminate.
  - now apply IH.
  - now injection Hf as ->.
Qed.

Lemma reduce_from_unterminated {A} (f : A -> A -> A) (o : Rx.Observable A) :
  Rx.terminated o = false -> forall acc, Rx.reduce_from f acc o = [].
Proof.
  induction o as [| [x | | e'] rest IH]; simpl; intros Ht acc;
    try discriminate; [reflexivity | now apply IH].
Qed.

Lemma reduce_from_completed_value {A} (f : A -> A -> A)
      (o : Rx.Observable A) :
  Rx.completed o = true ->
  forall a, Rx.reduce_from f (Some a) o
            = [Rx.Next (fold_left f (Rx.values o) a); Rx.Complete].
Proof.
  induction o as [| [x | | e'] rest IH]; simpl; intros Hc a;
    try discriminate; [now apply IH | reflexivity].
Qed.

Lemma tweets_pipeline_failure options extraction e :
  failure extraction = Some e ->
  tweets_pipeline options extraction = [Rx.Error e].
Proof.
  intros Hf. unfold tweets_pipeline, Rx.reduce.
  now rewrite (reduce_from_failure _ _ _ Hf).
Qed.

Lemma tweets_pipeline_unterminated options extraction :
  Rx.terminated extraction = false ->
  tweets_pipeline options extraction = [].
Proof.
  intros Ht. unfold tweets_pipeline, Rx.reduce.
  now rewrite (reduce_from_unterminated _ _ Ht).
Qed.

Lemma tweets_pipeline_delivers options extraction :
  Rx.completed extraction = true ->
  tweets_pipeline options extraction
  = match delivered options (Rx.values extraction) with
    | Some all => [Rx.Next all; Rx.Complete]
    | None => [Rx.Complete]
    end.
Proof.
  intros Hc. unfold tweets_pipeline, Rx.reduce, delivered, accumulate.
  destruct extraction as [| [x | | e] rest]; simpl in *; try discriminate.
  - rewrite (reduce_from_completed_value _ _ Hc). simpl.
    destruct (size_leb _ _); reflexivity.
  - reflexivity.
Qed.

(** *** The handlers *)

Lemma exportTweets_effects options world arr this :
  exportTweets options world arr this
  = (Returned tt, this, export_effects options world arr).
Proof.
  unfold exportTweets, exportToFile, emitProgressEvent, emitMessageEvent,
    export_effects, file_of.
  destruct (fileName options) as [file |]; [| reflexivity].
  destruct (truthy (Some file)); [| reflexivity].
  method_steps.
  destruct (JSONExporter_export world file arr) as [[] | e]; reflexivity.
Qed.

Lemma stop_does options world this :
  stop options world this
  = (Returned tt, stopped this, stop_effects options world (tweets this)).
Proof.
  unfold stop_effects.
  apply (stop_runs options world this), exportTweets_effects.
Qed.

Lemma onComplete_does options world this :
  onComplete options world this
  = (Returned tt, stopped this,
     stop_effects options world (tweets this) ++ [SuccessCallback]).
Proof.
  unfold onComplete, Method.bind. rewrite stop_does. reflexivity.
Qed.

Lemma onError_does err this :
  onError err this = (Returned tt, this, error_effects err).
Proof.
  unfold onError, emitMessageEvent, error_effects.
  destruct (stack err); reflexivity.
Qed.

(** *** A run, by the way the extractor ends *)

Lemma run_unterminated options world extraction this :
  Rx.terminated extraction = false ->
  run options world extraction this
  = (Returned tt, subscribed this, [OpenPageManager]).
Proof.
  intros Ht. rewrite run_subscribes, tweets_pipeline_unterminated by assumption.
  reflexivity.
Qed.

Lemma run_failed options world extraction this e :
  failure extraction = Some e ->
  run options world extraction this
  = (Returned tt, subscribed this, OpenPageManager :: error_effects e).
Proof.
  intros Hf. rewrite run_subscribes, (tweets_pipeline_failure _ _ _ Hf).
  simpl. now rewrite onError_does.
Qed.

Lemma run_completed_without options world extraction this :
  Rx.completed extraction = true ->
  delivered options (Rx.values extraction) = None ->
  run options world extraction this
  = (Returned tt, stopped this,
     OpenPageManager
       :: stop_effects options world (tweets this) ++ [SuccessCallback]).
Proof.
  intros Hc Hnone.
  rewrite run_subscribes, tweets_pipeline_delivers, Hnone by assumption.
  simpl. rewrite onComplete_does. reflexivity.
Qed.

Lemma run_completed_with options world extraction this all :
  Rx.completed extraction = true ->
  delivered options (Rx.values extraction) = Some all ->
  run options world extraction this
  = (Returned tt,
     stopped {| eventForwarder := eventForwarder this;
                tweetStream := tweetStream this;
                tweets := all;
                forwarding := forwarding this |},
     OpenPageManager ::
     match maxLimit options with
     | Finite _ =>
         [Emit (ProgressEvent BOOKMARKED_TWEETS_EXTRACTION
                  (Some {| complete := OrderedSet.size all;
                           total := maxLimit options |}))]
     | PositiveInfinity => []
     end ++ stop_effects options world all ++ [SuccessCallback]).
Proof.
  intros Hc Hsome.
  rewrite run_subscribes, tweets_pipeline_delivers, Hsome by assumption.
  simpl. unfold Method.bind, onExtractTweets, emitProgressEvent.
  destruct (maxLimit options) eqn:Hlimit; method_steps;
    rewrite onComplete_does; simpl; rewrite ?Hlimit; reflexivity.
Qed.

Lemma delivered_within options batches all :
  delivered options batches = Some all ->
  size_leb (OrderedSet.size all) (maxLimit options) = true
  /\ accumulate batches = Some all.
Proof.
  unfold delivered. destruct (accumulate batches) as [acc |]; [| discriminate].
  destruct (size_leb _ _) eqn:Hle; [| discriminate].
  intros E. injection E as <-. auto.
Qed.

Lemma slice0_within {A} (arr : list A) (limit : JsNumber) :
  size_leb (List.length arr) limit = true -> slice0 arr limit = arr.
Proof.
  destruct limit as [z |]; simpl; [| reflexivity].
  intros Hle. apply Z.leb_le in Hle.
  destruct (z <? 0)%Z eqn:Hneg.
  - apply Z.ltb_lt in Hneg. lia.
  - apply firstn_all2. lia.
Qed.

End RunFacts.

Module RunProperties.
Import ExtractionTask ExtractionTaskFacts Run RunFacts Samples Fixtures.

Lemma exported_app (l1 l2 : list Effect) :
  exported (l1 ++ l2) = exported l1 ++ exported l2.
Proof.
  induction l1 as [| [] l1 IH]; simpl; rewrite ?IH; reflexivity.
Qed.

Lemma exported_open (l : list Effect) :
  exported (OpenPageManager :: l) = exported l.
Proof. reflexivity. Qed.

Lemma emitted_open (l : list Effect) :
  emitted (OpenPageManager :: l) = emitted l.
Proof. reflexivity. Qed.



Lemma exported_stop_effects options world held :
  exported (stop_effects options world held)
  = [tweetMapsToTweets held (maxLimit options)].
Proof.
  unfold stop_effects, export_effects.
  destruct (file_of options); reflexivity.
Qed.




Lemma ratios_app (l1 l2 : list ProgressableEvent) :
  ratios (l1 ++ l2) = ratios l1 ++ ratios l2.
Proof.
  induction l1 as [| [name ratio | text] l1 IH]; simpl; [reflexivity | |].
  - destruct (String.eqb name BOOKMARKED_TWEETS_EXTRACTION); simpl;
      now rewrite IH.
  - apply IH.
Qed.

Lemma ratios_stop_effects options world held :
  ratios (emitted (stop_effects options world held)) = [].
Proof.
  unfold stop_effects, export_effects.
  destruct (file_of options) as [file |]; [| reflexivity].
  simpl. destruct (JSONExporter_export world file _); reflexivity.
Qed.

Lemma tweetMapsToTweets_within held limit :
  size_leb (OrderedSet.size held) limit = true ->
  tweetMapsToTweets held limit = held.
Proof.
  intros Hle. unfold tweetMapsToTweets, OrderedSet.toArray.
  rewrite map_toObject. now apply slice0_within.
Qed.

(** X12: [exportTweets] always returns and leaves the task as it is.
    Without a file name, or with the empty one, no file export is tried
    and the export progress event is raised all the same. With a file
    name the file export is tried once, and the one event that follows
    is the export progress event when it returned and the failure
    message when it threw. *)
Theorem exportTweets_outcome options world arr this :
  let result := exportTweets options world arr this in
  Method.completion result = Returned tt
  /\ Method.after result = this
  /\ (truthy (fileName options) = false ->
      Method.effects result = [Emit export_event])
  /\ (forall file,
        fileName options = Some file -> truthy (Some file) = true ->
        Method.effects result
        = [ ExportJSON file arr;
            Emit (match JSONExporter_export world file arr with
                  | Returned _ => export_event
                  | Threw _ => export_failed_event
                  end) ]).
Proof.
  intros result. subst result. rewrite exportTweets_effects.
  unfold Method.completion, Method.after, Method.effects. cbn [fst snd].
  repeat split.
  - intros Hfalsy. unfold export_effects, file_of. now rewrite Hfalsy.
  - intros file Hfile Htruthy. unfold export_effects, file_of.
    rewrite Hfile, Htruthy. reflexivity.
Qed.

(** X13: the array made from a set is a prefix of the set in its order.
    Without a limit it is the whole set; with a limit that is not
    negative it has as many records as the smaller of limit and size;
    with a negative limit it lacks that many records at the end. *)
Theorem tweetMapsToTweets_prefix (held : TweetSet) (limit : JsNumber) :
  (exists rest, held = tweetMapsToTweets held limit ++ rest)
  /\ match limit with
     | PositiveInfinity => tweetMapsToTweets held limit = held
     | Finite z =>
         ((0 <= z)%Z ->
          List.length (tweetMapsToTweets held limit)
          = Nat.min (Z.to_nat z) (List.length held))
         /\ ((z < 0)%Z ->
             List.length (tweetMapsToTweets held limit)
             = List.length held - Z.to_nat (- z))
     end.
Proof.
  unfold tweetMapsToTweets, OrderedSet.toArray. rewrite map_toObject.
  destruct limit as [z |]; simpl.
  - destruct (z <? 0)%Z eqn:Hneg.
    + apply Z.ltb_lt in Hneg. split.
      * eexists. symmetry. apply firstn_skipn.
      * split; [lia |]. intros _. rewrite length_firstn. lia.
    + apply Z.ltb_ge in Hneg. split.
      * eexists. symmetry. apply firstn_skipn.
      * split; [| lia]. intros _. apply length_firstn.
  - split; [| reflexivity]. exists []. now rewrite app_nil_r.
Qed.

(** X14: a run over an extractor that delivers some batches and
    completes hands one array to the console exporter: every record of
    every batch, when what was accumulated is within the limit, and no
    record at all when it is beyond the limit or when there was no
    batch. The set the task holds afterwards is that same array. *)
Theorem run_exports_all_or_nothing options world (batches : list TweetSet) :
  let result := run options world (Rx.of_batches batches) new in
  let kept :=
    match accumulate batches with
    | Some all =>
        if size_leb (OrderedSet.size all) (maxLimit options) then all else []
    | None => []
    end in
  exported (Method.effects result) = [kept]
  /\ tweets (Method.after result) = kept.
Proof.
  intros result kept. subst result kept.
  assert (Hc : Rx.completed (Rx.of_batches batches) = true).
  { unfold Rx.of_batches. induction batches; simpl; auto. }
  destruct (delivered options (Rx.values (Rx.of_batches batches)))
    as [all |] eqn:Hd.
  - rewrite (run_completed_with _ world _ new _ Hc Hd).
    rewrite values_of_batches in Hd.
    destruct (delivered_within _ _ _ Hd) as [Hle Hacc].
    rewrite Hacc, Hle. unfold Method.effects, Method.after; cbn [fst snd].
    rewrite exported_open, !exported_app, exported_stop_effects.
    rewrite tweetMapsToTweets_within by assumption.
    destruct (maxLimit options); split; reflexivity.
  - rewrite (run_completed_without _ world _ new Hc Hd).
    rewrite values_of_batches in Hd. unfold delivered in Hd.
    unfold Method.effects, Method.after; cbn [fst snd].
    rewrite exported_open, exported_app, exported_stop_effects.
    change (tweets (stopped new)) with (@nil Tweet).
    change (tweets new) with (@nil Tweet). simpl.
    assert (Hempty : tweetMapsToTweets [] (maxLimit options) = []).
    { unfold tweetMapsToTweets, slice0. simpl.
      destruct (maxLimit options) as [z |]; [| reflexivity].
      destruct (z <? 0)%Z; now rewrite firstn_nil. }
    rewrite Hempty.
    destruct (accumulate batches) as [all |]; [| split; reflexivity].
    destruct (size_leb _ _); [discriminate | split; reflexivity].
Qed.

(** X15: when the extractor fails, what a run does itself is this: it
    opens the page manager, raises the error's message, then its stack
    if it has one, as message events, and calls the error callback with
    the error. [stop()] is not run, so nothing is exported, the page
    manager is not closed, and the set the task holds is what it
    was. *)
Theorem run_failure options world extraction this err :
  failure extraction = Some err ->
  let result := run options world extraction this in
  Method.effects result
  = OpenPageManager
      :: Emit (MessageEvent (message err))
      :: match stack err with
         | Some trace => [Emit (MessageEvent trace)]
         | None => []
         end
      ++ [ErrorCallback err]
  /\ count is_close (Method.effects result) = 0
  /\ exported (Method.effects result) = []
  /\ tweets (Method.after result) = tweets this.
Proof.
  intros Hf result. subst result. rewrite (run_failed _ world _ this _ Hf).
  unfold Method.effects, Method.after, error_effects. simpl.
  destruct (stack err); repeat split; reflexivity.
Qed.

(** X16: as long as the extractor has neither completed nor failed, a
    run has done nothing but open the page manager, however many
    batches the extractor has delivered: it has raised no event of its
    own and called no callback, and the set the task holds is what it
    was. The only events on the Progress Channel are the ones the page
    manager raised while it opened, forwarded by the constructor's
    subscription. *)
Theorem run_waits options world extraction this :
  Rx.terminated extraction = false ->
  let result := run options world extraction this in
  Method.effects result = [OpenPageManager]
  /\ emitted (Method.effects result) = []
  /\ tweets (Method.after result) = tweets this
  /\ forall pm,
       channel pm (forwarding this) (Method.effects result)
       = (if closed (forwarding this) then [] else opening pm).
Proof.
  intros Ht result. subst result.
  rewrite (run_unterminated _ world _ this Ht).
  unfold Method.effects, Method.after. simpl.
  repeat split. intros pm. now rewrite app_nil_r.
Qed.


(** X18: a run raises at most one extraction-progress event. Its ratio
    has the configured limit, which is then finite, as total and the
    size of the set the task holds afterwards as complete, and complete
    is never above total. *)
Theorem run_ratio options world extraction this :
  let result := run options world extraction this in
  let progress := ratios (emitted (Method.effects result)) in
  List.length progress <= 1
  /\ forall r, In r progress ->
       exists ratio,
         r = Some ratio
         /\ total ratio = maxLimit options
         /\ is_finite (maxLimit options) = true
         /\ complete ratio = OrderedSet.size (tweets (Method.after result))
         /\ size_leb (complete ratio) (total ratio) = true.
Proof.
  intros result progress. subst result progress.
  destruct (ending_cases extraction)
    as [[Ht [Hc Hf]] | [[Ht [Hc Hf]] | [e [Ht [Hc Hf]]]]].
  - rewrite (run_unterminated _ world _ this Ht). simpl.
    split; [lia | tauto].
  - destruct (delivered options (Rx.values extraction)) as [all |] eqn:Hd.
    + rewrite (run_completed_with _ world _ this _ Hc Hd).
      destruct (delivered_within _ _ _ Hd) as [Hle _].
      unfold Method.effects, Method.after; cbn [fst snd].
      rewrite emitted_open, !emitted_app, !ratios_app, ratios_stop_effects.
      change (tweets (stopped _)) with all.
      destruct (maxLimit options) as [z |] eqn:Hlimit; simpl.
      * split; [lia |]. intros r [<- | []].
        eexists. split; [reflexivity |]. simpl. repeat split. exact Hle.
      * split; [lia | tauto].
    + rewrite (run_completed_without _ world _ this Hc Hd).
      unfold Method.effects; cbn [fst snd].
      rewrite emitted_open, emitted_app, ratios_app, ratios_stop_effects.
      simpl. split; [lia | tauto].
  - rewrite (run_failed _ world _ this _ Hf).
    unfold Method.effects, error_effects; cbn [fst snd].
    destruct (stack e); simpl; split; (lia || tauto).
Qed.

(** *** Every batch is taken in *)

Lemma terminated_of_completed {A} (o : Rx.Observable A) :
  Rx.completed o = true -> Rx.terminated o = true.
Proof.
  induction o as [| [x | | e] rest IH]; simpl; auto; discriminate.
Qed.

Lemma consumed_from_terminated {A B}
      (pipeline : Rx.Observable A -> Rx.Observable B) seen rest :
  Rx.terminated (pipeline seen) = true ->
  Rx.consumed_from pipeline seen rest = List.length seen.
Proof. intros Ht. destruct rest; simpl; now rewrite Ht. Qed.

Lemma failure_after_values {A} (vs : list A) e :
  failure (map Rx.Next vs ++ [Rx.Error e]) = Some e.
Proof. induction vs; simpl; auto. Qed.

Lemma completed_after_values {A} (vs : list A) :
  Rx.completed (map Rx.Next vs ++ [Rx.Complete]) = true.
Proof. induction vs; simpl; auto. Qed.

Lemma values_firstn_seen {A} (vs : list A) (terminal : Rx.Notification A)
      (rest : Rx.Observable A) :
  Rx.values
    (firstn (List.length (map Rx.Next vs ++ [terminal]))
            (map Rx.Next vs ++ terminal :: rest))
  = Rx.values (map Rx.Next vs ++ [terminal]).
Proof.
  change (terminal :: rest) with ([terminal] ++ rest).
  rewrite app_assoc, firstn_app, firstn_all, Nat.sub_diag. simpl.
  now rewrite app_nil_r.
Qed.

Lemma values_next {A} (vs : list A) (rest : Rx.Observable A) :
  Rx.values (map Rx.Next vs ++ rest) = vs ++ Rx.values rest.
Proof. induction vs as [| v vs IH]; simpl; [| rewrite IH]; reflexivity. Qed.

Lemma pulled_from options (rest : Rx.Observable TweetSet) :
  forall seen : list TweetSet,
    Rx.values
      (firstn (Rx.consumed_from (tweets_pipeline options)
                 (map Rx.Next seen) rest)
              (map Rx.Next seen ++ rest))
    = seen ++ Rx.values rest.
Proof.
  induction rest as [| [x | | e] rest IH]; intros seen.
  - simpl. rewrite tweets_pipeline_open. simpl.
    rewrite !app_nil_r, firstn_all.
    pose proof (values_next seen []) as Hseen. simpl in Hseen.
    rewrite !app_nil_r in Hseen. exact Hseen.
  - simpl. rewrite tweets_pipeline_open. simpl.
    change (map Rx.Next seen ++ [Rx.Next x])
      with (map Rx.Next seen ++ map Rx.Next [x]).
    specialize (IH (seen ++ [x])). rewrite !map_app in IH.
    rewrite <- !app_assoc in IH. simpl in IH. exact IH.
  - simpl. rewrite tweets_pipeline_open. simpl.
    rewrite consumed_from_terminated.
    + rewrite (values_firstn_seen seen Rx.Complete rest).
      rewrite values_next. reflexivity.
    + apply terminated_of_completed, tweets_pipeline_completed,
        completed_after_values.
  - simpl. rewrite tweets_pipeline_open. simpl.
    rewrite consumed_from_terminated.
    + rewrite (values_firstn_seen seen (Rx.Error e) rest).
      rewrite values_next. reflexivity.
    + rewrite (tweets_pipeline_failure options _ e); [reflexivity |].
      apply failure_after_values.
Qed.

(** X19: whatever the limit, the subscription of [run()] takes in every
    batch the extractor delivers before it completes or fails; no size
    of the accumulated set makes it let go of the extractor earlier. *)
Theorem run_pulls_everything options (extraction : Rx.Observable TweetSet) :
  batches_pulled options extraction = List.length (Rx.values extraction).
Proof.
  unfold batches_pulled, Rx.consumed.
  pose proof (pulled_from options extraction []) as Hall.
  simpl in Hall. now rewrite Hall.
Qed.


(** *** What is accumulated *)

Lemma accumulated_from (later : list TweetSet) :
  forall first : TweetSet,
    NoDup first ->
    let all := fold_left union later first in
    NoDup all
    /\ (forall x, In x all <-> In x first \/ exists b, In b later /\ In x b)
    /\ (exists rest, all = first ++ rest)
    /\ OrderedSet.size all
       <= OrderedSet.size first + List.length (List.concat later).
Proof.
  induction later as [| b later IH]; intros first Hfirst; simpl.
  - repeat split; auto.
    + intros [Hx | [b [[] _]]]. exact Hx.
    + exists []. now rewrite app_nil_r.
    + lia.
  - destruct (IH (union first b)) as [Hnodup [Hmem [[rest Hrest] Hsize]]].
    { apply (OrderedSetFacts.union_NoDup _ Tweet_is_eq), Hfirst. }
    split; [assumption |]. split; [| split].
    + intros x. rewrite Hmem. unfold union at 1.
      rewrite (OrderedSetFacts.union_In _ Tweet_is_eq). split.
      * intros [[Hx | Hx] | [b' [Hb' Hx]]]; eauto.
      * intros [Hx | [b' [[<- | Hb'] Hx]]]; eauto.
    + destruct (OrderedSetFacts.union_extends Tweet_is b first) as [t Ht].
      exists (t ++ rest). rewrite Hrest. unfold union. rewrite Ht.
      now rewrite app_assoc.
    + assert (Hstep : OrderedSet.size (union first b)
                      <= OrderedSet.size first + List.length b).
      { unfold union, OrderedSet.union, OrderedSet.size. clear.
        revert first. induction b as [| x b IHb]; intros first; simpl.
        - lia.
        - specialize (IHb (OrderedSet.add Tweet_is first x)).
          assert (List.length (OrderedSet.add Tweet_is first x)
                  <= S (List.length first)).
          { unfold OrderedSet.add. destruct (OrderedSet.has _ _ _).
            - lia.
            - rewrite length_app. simpl. lia. }
          lia. }
      rewrite length_app. lia.
Qed.

(** X21: what [run()] accumulates over the batches of an extractor whose
    first batch holds no record twice holds no record twice, holds
    exactly the records of the batches, starts with the first batch in
    its order, and is no larger than the batches taken together. *)
Theorem accumulate_first_seen (first : TweetSet) (later : list TweetSet)
        (all : TweetSet) :
  NoDup first ->
  accumulate (first :: later) = Some all ->
  NoDup all
  /\ (forall x, In x all <-> exists b, In b (first :: later) /\ In x b)
  /\ (exists rest, all = first ++ rest)
  /\ OrderedSet.size all <= List.length (List.concat (first :: later)).
Proof.
  intros Hfirst Hacc. simpl in Hacc. injection Hacc as <-.
  destruct (accumulated_from later first Hfirst)
    as [Hnodup [Hmem [Hprefix Hsize]]].
  split; [assumption |]. split; [| split; [assumption |]].
  - intros x. rewrite Hmem. split.
    + intros [Hx | [b [Hb Hx]]].
      * exists first. split; [now left | assumption].
      * exists b. split; [now right | assumption].
    + intros [b [[<- | Hb] Hx]]; eauto.
  - simpl. rewrite length_app. unfold OrderedSet.size in *. lia.
Qed.

(** *** The constructor's subscription *)

Lemma channel_app pm forwarding (l1 l2 : list Effect) :
  channel pm forwarding (l1 ++ l2)
  = channel pm forwarding l1 ++ channel pm forwarding l2.
Proof.
  induction l1 as [| [] l1 IH]; simpl; rewrite ?IH, ?app_assoc; reflexivity.
Qed.


(** *** Witnesses *)


Lemma exportTweets_outcome_witness :
  Method.effects
    (exportTweets {| maxLimit := Finite 5; fileName := Some EmptyString |}
                  read_only batch1 new)
  = [Emit export_event]
  /\ Method.effects (exportTweets limit5_to_file writable batch1 new)
     = [ExportJSON "bookmarks.json" batch1; Emit export_event].
Proof.
  destruct (exportTweets_outcome
              {| maxLimit := Finite 5; fileName := Some EmptyString |}
              read_only batch1 new) as [_ [_ [Hnone _]]].
  destruct (exportTweets_outcome limit5_to_file writable batch1 new)
    as [_ [_ [_ Hfile]]].
  split; [exact (Hnone eq_refl) |].
  exact (Hfile "bookmarks.json" eq_refl eq_refl).
Defined.

Lemma tweetMapsToTweets_prefix_witness :
  List.length (tweetMapsToTweets (batch1 ++ batch2) (Finite 5)) = 5
  /\ List.length (tweetMapsToTweets (batch1 ++ batch2) (Finite (-2))) = 4.
Proof.
  destruct (tweetMapsToTweets_prefix (batch1 ++ batch2) (Finite 5))
    as [_ [Hup _]].
  destruct (tweetMapsToTweets_prefix (batch1 ++ batch2) (Finite (-2)))
    as [_ [_ Hdown]].
  split.
  - rewrite Hup by lia. reflexivity.
  - rewrite Hdown by lia. reflexivity.
Defined.

Lemma run_failure_witness :
  Method.effects
    (run limit5 writable [Rx.Next batch1; Rx.Error disk_full] new)
  = [ OpenPageManager;
      Emit (MessageEvent "ENOSPC: no space left on device");
      Emit (MessageEvent "at JSONExporter.export");
      ErrorCallback disk_full ].
Proof.
  exact (proj1 (run_failure limit5 writable
                  [Rx.Next batch1; Rx.Error disk_full] new disk_full eq_refl)).
Defined.

Lemma run_waits_witness :
  Method.effects
    (run limit5 writable [Rx.Next batch1; Rx.Next batch2; Rx.Next batch3] new)
  = [OpenPageManager]
  /\ channel reporting (forwarding new)
       (Method.effects
          (run limit5 writable
               [Rx.Next batch1; Rx.Next batch2; Rx.Next batch3] new))
     = [ProgressEvent "bookmarks:page:open" None].
Proof.
  destruct (run_waits limit5 writable
              [Rx.Next batch1; Rx.Next batch2; Rx.Next batch3] new eq_refl)
    as [Heffects [_ [_ Hchannel]]].
  split; [exact Heffects | exact (Hchannel reporting)].
Defined.


Lemma run_ratio_witness :
  exists ratio,
    Some {| complete := 3; total := Finite 10 |} = Some ratio
    /\ size_leb (complete ratio) (total ratio) = true.
Proof.
  destruct (run_ratio limit10 writable (Rx.of_batches [batch1]) new)
    as [_ Hratio].
  destruct (Hratio (Some {| complete := 3; total := Finite 10 |}))
    as [ratio [Hr [_ [_ [_ Hle]]]]].
  - simpl. now left.
  - exists ratio. split; assumption.
Defined.

Lemma accumulate_first_seen_witness :
  NoDup (union batch1 (batch2 ++ [tweet "1"]))
  /\ OrderedSet.size (union batch1 (batch2 ++ [tweet "1"])) <= 7.
Proof.
  assert (Hfirst : NoDup batch1).
  { unfold batch1. repeat constructor; simpl; intuition discriminate. }
  destruct (accumulate_first_seen batch1 [batch2 ++ [tweet "1"]]
              (union batch1 (batch2 ++ [tweet "1"])) Hfirst eq_refl)
    as [Hnodup [_ [_ Hsize]]].
  split; [exact Hnodup | exact Hsize].
Defined.

End RunProperties.
